(** * Negocia: session aggregation store and rule-based insight engine

    A shallow embedding of [app/store/session_store.py],
    [app/engine/insight_engine.py], [app/models/*.py] and the
    [get_insights] endpoint of [app/api/insights.py], together with the
    properties of the deduplicating store and of the pattern engine.

    Conventions of the embedding:
    - a Python [float] (timestamps, confidences, talk ratios) is an exact
      canonical rational [Qc]; NaN, infinities and binary rounding are not
      represented;
    - a Python [str] is a [string] of bytes; whitespace and letter case
      are the ASCII ones;
    - a [dict] keyed by strings that is only looked up is a [gmap]; a
      [dict] whose iteration order is observable ([defaultdict], [Counter])
      is an association list in insertion order; a [set] is a [gset];
    - the asyncio lock serialises the store's operations, so each
      operation is a function from store to store and result. *)

From Stdlib Require Import ZArith QArith Qcanon Qround Lqa Ascii String.
From stdpp Require Import gmap strings list fin_maps sorting.

Local Open Scope string_scope.
Local Open Scope list_scope.
Local Open Scope nat_scope.

(** ** Python built-ins used by the program *)

Module Py.

(** [str.isspace] on one ASCII character: TAB, LF, VT, FF, CR, the four
    separators FS GS RS US, and the space. *)
Definition isspace (c : ascii) : bool :=
  let n := nat_of_ascii c in
  ((9 <=? n)%nat && (n <=? 13)%nat) || ((28 <=? n)%nat && (n <=? 32)%nat).

Definition lower_char (c : ascii) : ascii :=
  let n := nat_of_ascii c in
  if ((65 <=? n)%nat && (n <=? 90)%nat) then ascii_of_nat (n + 32) else c.

(** [s.lower()] *)
Fixpoint lower (s : string) : string :=
  match s with
  | EmptyString => EmptyString
  | String c r => String (lower_char c) (lower r)
  end.

(** [needle in hay] for strings. *)
Fixpoint contains (needle hay : string) : bool :=
  String.prefix needle hay ||
  match hay with
  | EmptyString => false
  | String _ r => contains needle r
  end.

(** [s.lstrip()], [s.rstrip()] and [s.strip()]. *)
Fixpoint lstrip (s : string) : string :=
  match s with
  | EmptyString => EmptyString
  | String c r => if isspace c then lstrip r else s
  end.

Fixpoint rstrip (s : string) : string :=
  match s with
  | EmptyString => EmptyString
  | String c r =>
      match rstrip r with
      | EmptyString => if isspace c then EmptyString else String c EmptyString
      | r' => String c r'
      end
  end.

Definition strip (s : string) : string := rstrip (lstrip s).

(** [s.split()]: the maximal runs of non-whitespace characters.
    [cur] is the token being read, in reverse. *)
Definition flush (cur : list ascii) (acc : list string) : list string :=
  match cur with
  | [] => acc
  | _ => string_of_list_ascii (rev cur) :: acc
  end.

Fixpoint split_aux (s : string) (cur : list ascii) : list string :=
  match s with
  | EmptyString => flush cur []
  | String c r =>
      if isspace c then flush cur (split_aux r [])
      else split_aux r (c :: cur)
  end.

Definition split (s : string) : list string := split_aux s [].

(** [x or 0] on an optional float: [None] and [0.0] are falsy. *)
Definition or_zero (x : option Qc) : Qc :=
  match x with
  | Some t => if bool_decide (t = 0%Qc) then 0%Qc else t
  | None => 0%Qc
  end.

(** [l[start:]]: a negative [start] counts from the end, and the bounds
    are clamped to the list. *)
Definition slice_from {A} (start : Z) (l : list A) : list A :=
  let n := Z.of_nat (length l) in
  let i := if (start <? 0)%Z then Z.max (n + start) 0 else Z.min start n in
  drop (Z.to_nat i) l.

(** [<] on pairs of floats, as tuples compare: the first components
    decide unless they are equal. *)
Definition tuple_ltb (a b : Qc * Qc) : bool :=
  if bool_decide (a.1 = b.1) then bool_decide (a.2 < b.2)%Qc
  else bool_decide (a.1 < b.1)%Qc.

(** [sorted(l, key=key)] / [l.sort(key=key)]: a stable sort that only
    uses [<] on keys. Insertion keeps an element ahead of the later
    elements whose key is not smaller. *)
Section Sort.
Context {A K : Type} (ltb : K → K → bool) (key : A → K).

Fixpoint insert_by (x : A) (l : list A) : list A :=
  match l with
  | [] => [x]
  | y :: l' =>
      if ltb (key y) (key x) then y :: insert_by x l' else x :: l
  end.

Fixpoint sorted (l : list A) : list A :=
  match l with
  | [] => []
  | x :: l' => insert_by x (sorted l')
  end.
End Sort.

(** [round(x, 1)]: to one decimal, halves to the even neighbour. *)
Definition round_half_even (q : Qc) : Z :=
  let f := Qfloor q in
  let r := (q - Q2Qc (inject_Z f))%Qc in
  if bool_decide (r < Q2Qc (1 # 2))%Qc then f
  else if bool_decide (Q2Qc (1 # 2) < r)%Qc then (f + 1)%Z
  else if Z.even f then f else (f + 1)%Z.

Definition round1 (q : Qc) : Qc :=
  (Q2Qc (inject_Z (round_half_even (q * Q2Qc 10))) / Q2Qc 10)%Qc.

(** A [defaultdict(int)] / [Counter] as an association list in
    insertion order: [d[k] += n]. *)
Fixpoint dict_add (k : string) (n : nat) (d : list (string * nat))
  : list (string * nat) :=
  match d with
  | [] => [(k, n)]
  | (k', v) :: d' =>
      if bool_decide (k' = k) then (k', v + n) :: d'
      else (k', v) :: dict_add k n d'
  end.

Fixpoint dict_get (k : string) (d : list (string * nat)) : option nat :=
  match d with
  | [] => None
  | (k', v) :: d' => if bool_decide (k' = k) then Some v else dict_get k d'
  end.

(** [Counter(iterable)] *)
Definition Counter (ks : list string) : list (string * nat) :=
  foldl (λ d k, dict_add k 1 d) [] ks.

(** [sep.join(parts)] *)
Fixpoint join (sep : string) (parts : list string) : string :=
  match parts with
  | [] => ""
  | [x] => x
  | x :: rest => (x ++ sep ++ join sep rest)%string
  end.

(** The line feed of ["\n"]. *)
Definition newline : string := String (ascii_of_nat 10) EmptyString.

(** [d[k].append(x)] after [if k not in d: d[k] = []], on a dictionary of
    lists kept in insertion order. *)
Fixpoint dict_append {V} (k : string) (x : V) (d : list (string * list V))
  : list (string * list V) :=
  match d with
  | [] => [(k, [x])]
  | (k', vs) :: d' =>
      if bool_decide (k' = k) then (k', vs ++ [x]) :: d'
      else (k', vs) :: dict_append k x d'
  end.

End Py.

(** ** Models ([app/models]) *)

(** [TranscriptSegment]: one transcript segment. *)
Module TranscriptSegment.
Record t := mk {
  text : string;
  speaker : option string;
  is_user : bool;
  timestamp : Qc
}.
End TranscriptSegment.

(** [InsightType]: the categories, with their string values. *)
Inductive InsightType :=
| PRICING_OBJECTION
| BUYING_SIGNAL
| COMPETITOR_MENTION
| NEXT_STEP
| STALL_TACTIC.

Definition value (ty : InsightType) : string :=
  match ty with
  | PRICING_OBJECTION => "pricing_objection"
  | BUYING_SIGNAL => "buying_signal"
  | COMPETITOR_MENTION => "competitor_mention"
  | NEXT_STEP => "next_step"
  | STALL_TACTIC => "stall_tactic"
  end.

Global Instance InsightType_eq_dec : EqDecision InsightType.
Proof. solve_decision. Defined.

(** [Insight]: one detected pattern. *)
Module Insight.
Record t := mk {
  type : InsightType;
  confidence : Qc;
  matched_text : string;
  matched_phrase : string;
  speaker : option string;
  timestamp : option Qc;
  suggestion : string
}.
End Insight.

(** [SessionInsights]: the insights of one session with their counts. *)
Module SessionInsights.
Record t := mk {
  session_id : string;
  insights : list Insight.t;
  total_insights : nat;
  summary : list (string * nat)
}.
End SessionInsights.

(** [SpeakerStats]: the statistics of one speaker. *)
Module SpeakerStats.
Record t := mk {
  speaker : string;
  segment_count : nat;
  word_count : nat;
  talk_ratio : Qc
}.
End SpeakerStats.

(** [SessionSummary]: the summary of a session. *)
Module SessionSummary.
Record t := mk {
  session_id : string;
  total_segments : nat;
  total_words : nat;
  speakers : list SpeakerStats.t;
  duration_seconds : option Qc
}.
End SessionSummary.

(** One entry of [FormattedTranscript.lines]: the dictionary with the keys
    speaker, text, timestamp and is_user. *)
Module TranscriptLine.
Record t := mk {
  speaker : string;
  text : string;
  timestamp : Qc;
  is_user : bool
}.
End TranscriptLine.

(** [FormattedTranscript]: the transcript with speaker labels. *)
Module FormattedTranscript.
Record t := mk {
  session_id : string;
  lines : list TranscriptLine.t;
  plain_text : string
}.
End FormattedTranscript.

(** [WebhookResponse] and [OmiWebhookPayload] ([app/models/webhook.py]). *)
Module WebhookResponse.
Record t := mk {
  status : string;
  session_id : string;
  segments_received : nat
}.
End WebhookResponse.

Module OmiWebhookPayload.
Record t := mk {
  session_id : string;
  segments : list TranscriptSegment.t
}.
End OmiWebhookPayload.

(** ** Rule definitions ([app/engine/insight_engine.py]) *)

Module Rule.
Record t := mk {
  phrase : string;
  confidence : Qc;
  suggestion : string
}.
End Rule.

Definition PRICING_OBJECTION_RULES : list Rule.t :=
  [ Rule.mk "too expensive" (Q2Qc (9 # 10))
      "Acknowledge the concern, then pivot to ROI and value delivered.";
    Rule.mk "over our budget" (Q2Qc (9 # 10))
      "Ask what their budget range is — explore flexible pricing or phased rollout.";
    Rule.mk "out of budget" (Q2Qc (9 # 10))
      "Ask what their budget range is — explore flexible pricing or phased rollout.";
    Rule.mk "can't afford" (Q2Qc (85 # 100))
      "Explore payment plans or a smaller starter package.";
    Rule.mk "cost is too high" (Q2Qc (85 # 100))
      "Break down the cost per user/month to reframe the investment.";
    Rule.mk "pricing is steep" (Q2Qc (8 # 10))
      "Compare against the cost of NOT solving the problem.";
    Rule.mk "cheaper option" (Q2Qc (8 # 10))
      "Differentiate on value, support, and total cost of ownership.";
    Rule.mk "price is a concern" (Q2Qc (8 # 10))
      "Validate their concern, then present a business case with projected savings.";
    Rule.mk "budget constraints" (Q2Qc (75 # 100))
      "Propose a phased implementation to spread costs.";
    Rule.mk "not in the budget" (Q2Qc (85 # 100))
      "Ask about their budget cycle — can this be planned for next quarter?";
    Rule.mk "spend that much" (Q2Qc (7 # 10))
      "Anchor the conversation on business impact, not just price." ].

Definition BUYING_SIGNAL_RULES : list Rule.t :=
  [ Rule.mk "send me a proposal" (Q2Qc (95 # 100))
      "Prepare and send the proposal within 24 hours. Strike while interest is hot.";
    Rule.mk "send a proposal" (Q2Qc (95 # 100))
      "Prepare and send the proposal within 24 hours. Strike while interest is hot.";
    Rule.mk "ready to move forward" (Q2Qc (95 # 100))
      "Confirm the scope and timeline, then initiate onboarding steps.";
    Rule.mk "move forward" (Q2Qc (9 # 10))
      "Clarify the next step — contract review, pilot, or sign-off.";
    Rule.mk "sign the contract" (Q2Qc (95 # 100))
      "Prepare the contract and schedule a signing call.";
    Rule.mk "start a pilot" (Q2Qc (9 # 10))
      "Define the pilot scope, success criteria, and timeline.";
    Rule.mk "when can we start" (Q2Qc (9 # 10))
      "Provide a concrete onboarding timeline.";
    Rule.mk "how soon can" (Q2Qc (85 # 100))
      "This signals urgency — respond with a fast-track option.";
    Rule.mk "ready to buy" (Q2Qc (95 # 100))
      "Close the deal. Confirm the order details and next steps.";
    Rule.mk "let's do it" (Q2Qc (85 # 100))
      "Confirm their decision and outline the immediate next steps.";
    Rule.mk "looks good" (Q2Qc (6 # 10))
      "Positive signal — ask a closing question to advance the deal.";
    Rule.mk "interested in" (Q2Qc (5 # 10))
      "Moderate interest — explore what specifically excites them.";
    Rule.mk "i like" (Q2Qc (5 # 10))
      "Positive sentiment — reinforce the value they see." ].

Definition COMPETITOR_MENTION_RULES : list Rule.t :=
  [ Rule.mk "competitor" (Q2Qc (8 # 10))
      "Ask what they like about the competitor, then differentiate on your strengths.";
    Rule.mk "alternative solution" (Q2Qc (75 # 100))
      "Understand their evaluation criteria and position your unique advantages.";
    Rule.mk "other vendor" (Q2Qc (8 # 10))
      "Ask where they are in the evaluation — are they actively comparing?";
    Rule.mk "other provider" (Q2Qc (8 # 10))
      "Ask where they are in the evaluation — are they actively comparing?";
    Rule.mk "looking at other" (Q2Qc (7 # 10))
      "Understand their timeline and what would make them choose you.";
    Rule.mk "comparing with" (Q2Qc (8 # 10))
      "Ask what criteria matter most — tailor your pitch accordingly.";
    Rule.mk "evaluated another" (Q2Qc (75 # 100))
      "Ask what they learned and how you can address any gaps.";
    Rule.mk "switching from" (Q2Qc (85 # 100))
      "They're already considering a change — understand their pain points with the current solution." ].

Definition NEXT_STEP_RULES : list Rule.t :=
  [ Rule.mk "schedule a follow-up" (Q2Qc (9 # 10))
      "Suggest specific dates/times. Don't leave it open-ended.";
    Rule.mk "book a meeting" (Q2Qc (9 # 10))
      "Send a calendar invite before they leave the call.";
    Rule.mk "set up a demo" (Q2Qc (9 # 10))
      "Confirm the demo scope and who should attend.";
    Rule.mk "loop in my team" (Q2Qc (85 # 100))
      "Great — ask who specifically and offer to present to them.";
    Rule.mk "get back to you" (Q2Qc (6 # 10))
      "Pin down a specific date: 'When works best to reconnect?'";
    Rule.mk "follow up next week" (Q2Qc (8 # 10))
      "Confirm the day and send a calendar hold.";
    Rule.mk "talk to my manager" (Q2Qc (7 # 10))
      "Offer to join the internal discussion or provide a one-pager for their manager.";
    Rule.mk "internal discussion" (Q2Qc (65 # 100))
      "Ask what information they need for the internal discussion.";
    Rule.mk "discuss internally" (Q2Qc (65 # 100))
      "Offer a concise summary document they can share internally." ].

Definition STALL_TACTIC_RULES : list Rule.t :=
  [ Rule.mk "not a priority right now" (Q2Qc (85 # 100))
      "Ask what IS a priority and whether this problem will get worse over time.";
    Rule.mk "maybe next quarter" (Q2Qc (7 # 10))
      "Understand what changes next quarter and create urgency for acting sooner.";
    Rule.mk "need more time" (Q2Qc (6 # 10))
      "Ask what specific information they need to make a decision.";
    Rule.mk "think about it" (Q2Qc (65 # 100))
      "Ask what specific concerns remain — try to address them now.";
    Rule.mk "not ready yet" (Q2Qc (7 # 10))
      "Ask what would make them ready and what's blocking the decision.";
    Rule.mk "timing isn't right" (Q2Qc (75 # 100))
      "Explore what would make the timing right — is there a triggering event?";
    Rule.mk "circle back later" (Q2Qc (6 # 10))
      "Pin down a specific date and send a calendar invite." ].

(** The rule sets by insight type, in the order of the dictionary. *)
Definition _RULE_MAP : list (InsightType * list Rule.t) :=
  [ (PRICING_OBJECTION, PRICING_OBJECTION_RULES);
    (BUYING_SIGNAL, BUYING_SIGNAL_RULES);
    (COMPETITOR_MENTION, COMPETITOR_MENTION_RULES);
    (NEXT_STEP, NEXT_STEP_RULES);
    (STALL_TACTIC, STALL_TACTIC_RULES) ].

(** ** The engine *)

Module InsightEngine.

(** The engine's only attribute: the size of the sliding window. *)
Record t := mk { window_size : Z }.

(** The deduplication key: (type, phrase, timestamp). *)
Abbreviation dedup_key := (string * string * Qc)%type.

(** The two accumulators of a run: [insights] and [seen]. *)
Abbreviation scan_state := (list Insight.t * gset dedup_key)%type.

Definition make_insight (insight_type : InsightType) (rule : Rule.t)
    (segment : TranscriptSegment.t) : Insight.t :=
  Insight.mk insight_type (Rule.confidence rule)
    (TranscriptSegment.text segment) (Rule.phrase rule)
    (TranscriptSegment.speaker segment)
    (Some (TranscriptSegment.timestamp segment))
    (Rule.suggestion rule).

(** The body of the innermost loop, for one rule. *)
Definition scan_rule (segment : TranscriptSegment.t) (text_lower : string)
    (insight_type : InsightType) (st : scan_state) (rule : Rule.t)
  : scan_state :=
  if Py.contains (Rule.phrase rule) text_lower then
    let key : dedup_key :=
      (value insight_type, Rule.phrase rule,
       TranscriptSegment.timestamp segment) in
    if bool_decide (key ∈ st.2) then st
    else ((st.1 ++ [make_insight insight_type rule segment])%list,
        {[ key ]} ∪ st.2)
  else st.

(** The body of the outer loop, for one segment. *)
Definition scan_segment (st : scan_state) (segment : TranscriptSegment.t)
  : scan_state :=
  let text_lower := Py.lower (TranscriptSegment.text segment) in
  foldl (λ st tr, foldl (scan_rule segment text_lower tr.1) st tr.2)
    st _RULE_MAP.

(** The sliding window. *)
Definition target_segments (self : t) (segments : list TranscriptSegment.t)
  : list TranscriptSegment.t :=
  if ((0 <? window_size self)%Z
      && (window_size self <? Z.of_nat (length segments))%Z)
  then Py.slice_from (- window_size self) segments
  else segments.

(** The sort key: [(i.timestamp or 0, -i.confidence)]. *)
Definition sort_key (i : Insight.t) : Qc * Qc :=
  (Py.or_zero (Insight.timestamp i), (- Insight.confidence i)%Qc).

(** The insights in the order of detection, before the sort. *)
Definition scan (targets : list TranscriptSegment.t) : scan_state :=
  foldl scan_segment ([], ∅) targets.

Definition analyze_segments (self : t)
    (segments : list TranscriptSegment.t) (session_id : string)
  : SessionInsights.t :=
  let targets := target_segments self segments in
  let insights := (scan targets).1 in
  let insights := Py.sorted Py.tuple_ltb sort_key insights in
  let type_counts :=
    Py.Counter (map (λ i, value (Insight.type i)) insights) in
  SessionInsights.mk session_id insights (length insights) type_counts.

End InsightEngine.

(** The module-level singleton. *)
Definition insight_engine : InsightEngine.t := InsightEngine.mk 0.

(** ** The session store ([app/store/session_store.py]) *)

(** Label used when no speaker tag is provided. *)
Definition _UNKNOWN_SPEAKER : string := "UNKNOWN".

Definition Qc_ltb (a b : Qc) : bool := bool_decide (a < b)%Qc.

Module SessionData.

Record t := mk {
  session_id : string;
  segments : list TranscriptSegment.t;
  segment_count : nat;
  latest_insights : option SessionInsights.t
}.

(** [SessionData(session_id=session_id)], with the defaults of the fields. *)
Definition new (session_id : string) : t := mk session_id [] 0 None.

(** The deduplication key of a segment: (timestamp, text). *)
Definition seg_key (s : TranscriptSegment.t) : Qc * string :=
  (TranscriptSegment.timestamp s, TranscriptSegment.text s).

(** [add_segments]: the updated session and the count added. *)
Definition add_segments (self : t) (new_segments : list TranscriptSegment.t)
  : t * nat :=
  let existing_keys : gset (Qc * string) :=
    list_to_set (seg_key <$> segments self) in
  let unique :=
    filter (λ s, seg_key s ∉ existing_keys) new_segments in
  (mk (session_id self) (segments self ++ unique)%list
      (segment_count self + length unique) (latest_insights self),
   length unique).

(** [ordered_segments]: sorted by timestamp. *)
Definition ordered_segments (self : t) : list TranscriptSegment.t :=
  Py.sorted Qc_ltb TranscriptSegment.timestamp (segments self).

(** [_speaker_label]: [segment.speaker.strip() if segment.speaker else
    _UNKNOWN_SPEAKER]; [None] and the empty string are falsy. *)
Definition _speaker_label (segment : TranscriptSegment.t) : string :=
  match TranscriptSegment.speaker segment with
  | Some (String c r) => Py.strip (String c r)
  | Some EmptyString => _UNKNOWN_SPEAKER
  | None => _UNKNOWN_SPEAKER
  end.

(** [len(seg.text.split())] *)
Definition word_count_of (seg : TranscriptSegment.t) : nat :=
  length (Py.split (TranscriptSegment.text seg)).

(** The loop of [get_speaker_stats] over the two dictionaries
    [speaker_segments] and [speaker_words]. *)
Definition count_segment
    (d : list (string * nat) * list (string * nat))
    (seg : TranscriptSegment.t)
  : list (string * nat) * list (string * nat) :=
  let label := _speaker_label seg in
  (Py.dict_add label 1 d.1, Py.dict_add label (word_count_of seg) d.2).

(** [sum(speaker_words.values()) or 1] *)
Definition total_words_or_1 (speaker_words : list (string * nat)) : nat :=
  match sum_list (snd <$> speaker_words) with
  | 0 => 1
  | n => n
  end.

(** [round((words / total_words) * 100, 1)] *)
Definition talk_ratio_of (words total_words : nat) : Qc :=
  Py.round1
    ((Q2Qc (inject_Z (Z.of_nat words)) / Q2Qc (inject_Z (Z.of_nat total_words)))
     * Q2Qc 100)%Qc.

Definition get_speaker_stats (self : t) : list SpeakerStats.t :=
  let '(speaker_segments, speaker_words) :=
    foldl count_segment ([], []) (segments self) in
  let total_words := total_words_or_1 speaker_words in
  (λ sw : string * nat,
     SpeakerStats.mk sw.1
       (default 0 (Py.dict_get sw.1 speaker_segments))
       sw.2
       (talk_ratio_of sw.2 total_words)) <$> speaker_words.

(** [full_transcript]: the texts in time order, joined by spaces. *)
Definition full_transcript (self : t) : string :=
  Py.join " " (TranscriptSegment.text <$> ordered_segments self).

(** [duration]: [None] below two segments, else [ordered[-1].timestamp -
    ordered[0].timestamp]. The empty case of the match is not reached. *)
Definition duration (self : t) : option Qc :=
  if (length (segments self) <? 2)%nat then None
  else
    let ordered := ordered_segments self in
    match ordered with
    | [] => None
    | first :: _ =>
        Some (TranscriptSegment.timestamp (List.last ordered first)
              - TranscriptSegment.timestamp first)%Qc
    end.

(** The body of the loop of [get_formatted_transcript]: one more line and
    one more part of the plain text. *)
Definition format_segment
    (acc : list TranscriptLine.t * list string) (seg : TranscriptSegment.t)
  : list TranscriptLine.t * list string :=
  let label := _speaker_label seg in
  (acc.1 ++ [TranscriptLine.mk label (TranscriptSegment.text seg)
               (TranscriptSegment.timestamp seg)
               (TranscriptSegment.is_user seg)],
   acc.2 ++ [("[" ++ label ++ "]: " ++ TranscriptSegment.text seg)%string]).

Definition get_formatted_transcript (self : t) : FormattedTranscript.t :=
  let '(lines, plain_parts) :=
    foldl format_segment ([], []) (ordered_segments self) in
  FormattedTranscript.mk (session_id self) lines
    (Py.join Py.newline plain_parts).

Definition get_summary (self : t) : SessionSummary.t :=
  let total_words := sum_list (word_count_of <$> segments self) in
  SessionSummary.mk (session_id self) (segment_count self) total_words
    (get_speaker_stats self) (duration self).

(** [to_dict]: session_id, segment_count and the dumped segments. *)
Definition to_dict (self : t) : string * nat * list TranscriptSegment.t :=
  (session_id self, segment_count self, segments self).

End SessionData.

Module SessionStore.

(** The store: the dictionary of the sessions. The lock admits one
    operation at a time, so an operation is a function of the store. *)
Record t := mk { _sessions : gmap string SessionData.t }.

(** [SessionStore()] *)
Definition new : t := mk ∅.

(** [add_segments]: the session is created when the id is new, then
    updated in place. *)
Definition add_segments (self : t) (session_id : string)
    (segments : list TranscriptSegment.t) : t * nat :=
  let session :=
    match _sessions self !! session_id with
    | None => SessionData.new session_id
    | Some session => session
    end in
  let '(session', n) := SessionData.add_segments session segments in
  (mk (<[session_id := session']> (_sessions self)), n).

Definition get_session (self : t) (session_id : string)
  : option SessionData.t :=
  _sessions self !! session_id.

Definition run_analysis (self : t) (session_id : string)
  : t * option SessionInsights.t :=
  match _sessions self !! session_id with
  | None => (self, None)
  | Some session =>
      let result :=
        InsightEngine.analyze_segments insight_engine
          (SessionData.ordered_segments session) session_id in
      (mk (<[session_id :=
               SessionData.mk (SessionData.session_id session)
                 (SessionData.segments session)
                 (SessionData.segment_count session)
                 (Some result)]> (_sessions self)),
       Some result)
  end.

Definition get_insights (self : t) (session_id : string)
  : option SessionInsights.t :=
  match _sessions self !! session_id with
  | None => None
  | Some session => SessionData.latest_insights session
  end.

(** [list_sessions]: the ids; the order of the dictionary is not kept by
    the map. *)
Definition list_sessions (self : t) : list string :=
  (map_to_list (_sessions self)).*1.

(** [get_stats]: (active_sessions, total_segments). *)
Definition get_stats (self : t) : nat * nat :=
  (size (_sessions self),
   sum_list ((λ kv, SessionData.segment_count kv.2)
               <$> map_to_list (_sessions self))).

End SessionStore.

(** ** The insights endpoint ([app/api/insights.py]) *)

Module Api.

Inductive error :=
| HTTP_404_NOT_FOUND (detail : string)
| AttributeError.

(** [GET /insights/{session_id}]: the store after the request and the
    response or the exception raised. *)
Definition get_insights (store : SessionStore.t) (session_id : string)
    (type : option InsightType) (min_confidence : Qc)
  : SessionStore.t * (error + SessionInsights.t) :=
  match SessionStore.get_session store session_id with
  | None =>
      (store,
       inl (HTTP_404_NOT_FOUND
              ("Session '" ++ session_id ++ "' not found.")%string))
  | Some _ =>
      let '(store, insights) :=
        match SessionStore.get_insights store session_id with
        | Some insights => (store, Some insights)
        | None => SessionStore.run_analysis store session_id
        end in
      match insights with
      | None => (store, inl AttributeError)
      | Some insights =>
          let filtered := SessionInsights.insights insights in
          let filtered :=
            match type with
            | Some ty => filter (λ i, Insight.type i = ty) filtered
            | None => filtered
            end in
          let filtered :=
            if bool_decide (0 < min_confidence)%Qc
            then filter (λ i, (min_confidence <= Insight.confidence i)%Qc)
                   filtered
            else filtered in
          let type_counts :=
            Py.Counter (map (λ i, value (Insight.type i)) filtered) in
          (store,
           inr (SessionInsights.mk session_id filtered (length filtered)
                  type_counts))
      end
  end.

(** One suggestion of the coaching answer: suggestion, trigger and
    confidence. *)
Record coaching_entry := mk_coaching_entry {
  ce_suggestion : string;
  ce_trigger : string;
  ce_confidence : Qc
}.

(** The body of the loop of [get_coaching]. *)
Definition coach (coaching : list (string * list coaching_entry))
    (i : Insight.t) : list (string * list coaching_entry) :=
  if bool_decide (Insight.confidence i < Q2Qc (6 # 10))%Qc then coaching
  else
    Py.dict_append (value (Insight.type i))
      (mk_coaching_entry (Insight.suggestion i) (Insight.matched_phrase i)
         (Insight.confidence i))
      coaching.

(** [GET /insights/{session_id}/coaching]: the store after the request and
    (session_id, coaching, total_suggestions) or the exception raised. *)
Definition get_coaching (store : SessionStore.t) (session_id : string)
  : SessionStore.t
    * (error + string * list (string * list coaching_entry) * nat) :=
  match SessionStore.get_session store session_id with
  | None =>
      (store,
       inl (HTTP_404_NOT_FOUND
              ("Session '" ++ session_id ++ "' not found.")%string))
  | Some _ =>
      let '(store, insights) :=
        match SessionStore.get_insights store session_id with
        | Some insights => (store, Some insights)
        | None => SessionStore.run_analysis store session_id
        end in
      match insights with
      | None => (store, inl AttributeError)
      | Some insights =>
          let coaching := foldl coach [] (SessionInsights.insights insights) in
          (store,
           inr (session_id, coaching, sum_list (length <$> coaching.*2)))
      end
  end.

End Api.

(** ** The webhook router ([app/api/webhook.py]) *)

Module Webhook.

(** What the handlers work on: the session store and the idempotency
    cache of the module. A handler runs without suspension (the lock of
    the store is never held across one), so it is a function of this
    state. *)
Record state := mk_state {
  store : SessionStore.t;
  _idempotency_cache : gmap string WebhookResponse.t
}.

Inductive error :=
| HTTP_404_NOT_FOUND (detail : string)
| ResponseValidationError.

(** [_get_session_or_404] *)
Definition _get_session_or_404 (st : state) (session_id : string)
  : error + SessionData.t :=
  match SessionStore.get_session (store st) session_id with
  | None =>
      inl (HTTP_404_NOT_FOUND
             ("Session '" ++ session_id ++ "' not found.")%string)
  | Some session => inr session
  end.

(** The key when it is given and not empty ([if x_idempotency_key]). *)
Definition given_key (x_idempotency_key : option string) : option string :=
  match x_idempotency_key with
  | Some (String c r) => Some (String c r)
  | Some EmptyString => None
  | None => None
  end.

(** [POST /omi/webhook]: the state after the handler, its response, and
    the session whose analysis it left to a background task, if any. *)
Definition receive_webhook (st : state) (payload : OmiWebhookPayload.t)
    (x_idempotency_key : option string)
  : state * WebhookResponse.t * option string :=
  match given_key x_idempotency_key ≫= λ k, _idempotency_cache st !! k with
  | Some cached => (st, cached, None)
  | None =>
      let '(store', new_count) :=
        SessionStore.add_segments (store st)
          (OmiWebhookPayload.session_id payload)
          (OmiWebhookPayload.segments payload) in
      let response :=
        WebhookResponse.mk "ok" (OmiWebhookPayload.session_id payload)
          new_count in
      let cache' :=
        match given_key x_idempotency_key with
        | Some k => <[k := response]> (_idempotency_cache st)
        | None => _idempotency_cache st
        end in
      (mk_state store' cache', response,
       Some (OmiWebhookPayload.session_id payload))
  end.

(** [_run_background_analysis]: the task run after the handler. *)
Definition _run_background_analysis (st : state) (session_id : string)
  : state :=
  mk_state (SessionStore.run_analysis (store st) session_id).1
    (_idempotency_cache st).

(** [GET /omi/sessions]: the ids, active_sessions and total_segments. *)
Definition list_sessions (st : state) : list string * nat * nat :=
  (SessionStore.list_sessions (store st),
   (SessionStore.get_stats (store st)).1,
   (SessionStore.get_stats (store st)).2).

(** [GET /omi/sessions/{session_id}] *)
Definition get_session (st : state) (session_id : string)
  : error + string * nat * list TranscriptSegment.t :=
  match _get_session_or_404 st session_id with
  | inl e => inl e
  | inr session => inr (SessionData.to_dict session)
  end.

(** [GET /omi/sessions/{session_id}/summary] *)
Definition get_session_summary (st : state) (session_id : string)
  : error + SessionSummary.t :=
  match _get_session_or_404 st session_id with
  | inl e => inl e
  | inr session => inr (SessionData.get_summary session)
  end.

(** [GET /omi/sessions/{session_id}/transcript] *)
Definition get_session_transcript (st : state) (session_id : string)
  : error + FormattedTranscript.t :=
  match _get_session_or_404 st session_id with
  | inl e => inl e
  | inr session => inr (SessionData.get_formatted_transcript session)
  end.

(** [GET /omi/sessions/{session_id}/insights]: the cached insights, or a
    fresh analysis that is then cached. *)
Definition get_session_insights (st : state) (session_id : string)
  : state * (error + SessionInsights.t) :=
  match _get_session_or_404 st session_id with
  | inl e => (st, inl e)
  | inr _ =>
      match SessionStore.get_insights (store st) session_id with
      | Some insights => (st, inr insights)
      | None =>
          let '(store', insights) :=
            SessionStore.run_analysis (store st) session_id in
          (mk_state store' (_idempotency_cache st),
           match insights with
           | Some insights => inr insights
           | None => inl ResponseValidationError
           end)
      end
  end.

End Webhook.

(** ** Sequences of store operations *)

(** The public operations of the store. *)
Inductive op :=
| AddSegments (session_id : string) (segments : list TranscriptSegment.t)
| GetSession (session_id : string)
| RunAnalysis (session_id : string)
| GetInsights (session_id : string)
| ListSessions
| GetStats.

(** The store after one operation; the four readers leave it as it is. *)
Definition step (st : SessionStore.t) (o : op) : SessionStore.t :=
  match o with
  | AddSegments sid segs => (SessionStore.add_segments st sid segs).1
  | RunAnalysis sid => (SessionStore.run_analysis st sid).1
  | GetSession _ | GetInsights _ | ListSessions | GetStats => st
  end.

(** The store reached from a fresh one by a sequence of operations. *)
Definition run (ops : list op) : SessionStore.t :=
  foldl step SessionStore.new ops.

(** ** Vocabulary of the properties *)

(** [x] may stand before [y] in a list sorted by [key]: the key of [y] is
    not smaller than the key of [x]. *)
Definition key_le {A K : Type} (ltb : K → K → bool) (key : A → K)
    (x y : A) : Prop :=
  ltb (key y) (key x) = false.

(** A segment used twice in one batch. *)
Definition dup_seg : TranscriptSegment.t :=
  TranscriptSegment.mk "hello" None false (Q2Qc 1).

(** Two segments of the scenario of the specification. *)
Definition seg_a : TranscriptSegment.t :=
  TranscriptSegment.mk "This is too expensive" (Some "SPEAKER_01") false
    (Q2Qc 1).

Definition seg_b : TranscriptSegment.t :=
  TranscriptSegment.mk "Send me a proposal" None true (Q2Qc 2).

(** [a] is not after [b] in time. *)
Definition ts_le (a b : TranscriptSegment.t) : Prop :=
  (TranscriptSegment.timestamp a <= TranscriptSegment.timestamp b)%Qc.

(** The order of the insights of a result: by timestamp, a missing one
    counting as 0, and for equal timestamps by confidence, the higher
    first. *)
Definition insight_le (i j : Insight.t) : Prop :=
  (Py.or_zero (Insight.timestamp i) < Py.or_zero (Insight.timestamp j))%Qc
  ∨ (Py.or_zero (Insight.timestamp i) = Py.or_zero (Insight.timestamp j)
     ∧ (Insight.confidence j <= Insight.confidence i)%Qc).

(** The number of insights of one type in a list. *)
Definition count_type (ty : InsightType) (l : list Insight.t) : nat :=
  length (filter (λ i, Insight.type i = ty) l).

(** The number of occurrences of a key in a list of keys. *)
Definition occ (c : string) (ks : list string) : nat :=
  length (filter (λ k, k = c) ks).

(** A candidate: a segment with a rule of some type. *)
Abbreviation candidate := (TranscriptSegment.t * InsightType * Rule.t)%type.

(** The candidates in the order in which the three nested loops of
    [analyze_segments] reach them. *)
Definition candidates (targets : list TranscriptSegment.t) : list candidate :=
  targets ≫= λ seg, _RULE_MAP ≫= λ tr, (λ rule, (seg, tr.1, rule)) <$> tr.2.

(** The body of the innermost loop at a candidate. *)
Definition visit (st : InsightEngine.scan_state) (c : candidate)
  : InsightEngine.scan_state :=
  InsightEngine.scan_rule c.1.1 (Py.lower (TranscriptSegment.text c.1.1))
    c.1.2 st c.2.

(** The insights accumulated once the loops went through [cs]. *)
Definition emitted (cs : list candidate) : list Insight.t :=
  (foldl visit ([], ∅) cs).1.

(** The rule's phrase is in the lowercased text of the segment. *)
Definition matches (c : candidate) : bool :=
  Py.contains (Rule.phrase c.2) (Py.lower (TranscriptSegment.text c.1.1)).

(** The deduplication key (type, phrase, timestamp) read off an insight
    and off a candidate. *)
Definition insight_key (i : Insight.t) : string * string * option Qc :=
  (value (Insight.type i), Insight.matched_phrase i, Insight.timestamp i).

Definition candidate_key (c : candidate) : string * string * option Qc :=
  (value c.1.2, Rule.phrase c.2, Some (TranscriptSegment.timestamp c.1.1)).

(** [seen] holds the keys of the insights found so far, and no two of
    these insights share a key. *)
Definition seen_ok (st : InsightEngine.scan_state) : Prop :=
  (∀ k : string * string * Qc,
     k ∈ st.2 ↔ (k.1.1, k.1.2, Some k.2) ∈ insight_key <$> st.1)
  ∧ NoDup (insight_key <$> st.1).

(** The range of a confidence, as the models declare it
    ([Field(ge=0.0, le=1.0)]). *)
Definition confidence_valid (i : Insight.t) : Prop :=
  (0 <= Insight.confidence i)%Qc ∧ (Insight.confidence i <= 1)%Qc.

(** An insight passes the filters of the endpoint: it has the type asked
    for, when one is, and a confidence of at least [min_confidence]. *)
Definition keeps (type : option InsightType) (min_confidence : Qc)
    (i : Insight.t) : Prop :=
  match type with Some ty => Insight.type i = ty | None => True end
  ∧ (min_confidence <= Insight.confidence i)%Qc.

Global Instance keeps_dec type min_confidence i :
  Decision (keeps type min_confidence i).
Proof. unfold keeps. destruct type; apply _. Defined.

(** The insights the endpoint starts from: the cached ones, or those of a
    fresh analysis when nothing is cached. *)
Definition base_insights (s : SessionData.t) (session_id : string)
  : SessionInsights.t :=
  match SessionData.latest_insights s with
  | Some cached => cached
  | None =>
      InsightEngine.analyze_segments insight_engine
        (SessionData.ordered_segments s) session_id
  end.

(** A store with one analysed session, and that session. *)
Definition demo_store : SessionStore.t :=
  (SessionStore.run_analysis
     (SessionStore.add_segments SessionStore.new "s1" [seg_a; seg_b]).1
     "s1").1.

Definition demo_session : SessionData.t :=
  SessionData.mk "s1" [seg_a; seg_b] 2
    (Some (InsightEngine.analyze_segments insight_engine [seg_a; seg_b] "s1")).



Definition total_words (segs : list TranscriptSegment.t) : nat :=
  sum_list (SessionData.word_count_of <$> segs).





(** A word: not empty and without whitespace. *)
Definition is_token (t : string) : Prop :=
  t ≠ "" ∧ Forall (λ c, Py.isspace c = false) (list_ascii_of_string t).

(** A dictionary of counters filled from a list: [d[k x] += w x]. *)
Definition dict_of {A} (k : A → string) (w : A → nat)
    (d0 : list (string * nat)) (l : list A) : list (string * nat) :=
  foldl (λ d x, Py.dict_add (k x) (w x) d) d0 l.




(** The line and the plain-text part of a segment in the transcript. *)
Definition line_of (seg : TranscriptSegment.t) : TranscriptLine.t :=
  TranscriptLine.mk (SessionData._speaker_label seg)
    (TranscriptSegment.text seg) (TranscriptSegment.timestamp seg)
    (TranscriptSegment.is_user seg).

Definition plain_line_of (seg : TranscriptSegment.t) : string :=
  ("[" ++ SessionData._speaker_label seg ++ "]: "
   ++ TranscriptSegment.text seg)%string.

(** A line is not after another in time. *)
Definition line_le (a b : TranscriptLine.t) : Prop :=
  (TranscriptLine.timestamp a <= TranscriptLine.timestamp b)%Qc.

(** The session an operation works on, if it names one. *)
Definition op_session (o : op) : option string :=
  match o with
  | AddSegments sid _ | GetSession sid | RunAnalysis sid | GetInsights sid =>
      Some sid
  | ListSessions | GetStats => None
  end.

(** The cached insights are the analysis of the first [k] stored segments. *)
Definition cache_of_prefix (sid : string) (s : SessionData.t)
    (cached : SessionInsights.t) : Prop :=
  ∃ k, k ≤ length (SessionData.segments s)
       ∧ cached
         = InsightEngine.analyze_segments insight_engine
             (Py.sorted Qc_ltb TranscriptSegment.timestamp
                (take k (SessionData.segments s)))
             sid.

(** What every session of a reachable store satisfies. *)
Definition session_ok (sid : string) (s : SessionData.t) : Prop :=
  SessionData.session_id s = sid
  ∧ ∀ cached, SessionData.latest_insights s = Some cached →
              cache_of_prefix sid s cached.

(** The events of the webhook router: a delivery, the background analysis
    of a session, and a request for the insights of a session. *)
Inductive event :=
| Deliver (payload : OmiWebhookPayload.t) (x_idempotency_key : option string)
| Background (session_id : string)
| AskInsights (session_id : string).

(** The state after an event. *)
Definition handle (st : Webhook.state) (e : event) : Webhook.state :=
  match e with
  | Deliver payload key => (Webhook.receive_webhook st payload key).1.1
  | Background sid => Webhook._run_background_analysis st sid
  | AskInsights sid => (Webhook.get_session_insights st sid).1
  end.

(** A response that is not an exception. *)
Definition is_ok {E A} (r : E + A) : Prop :=
  match r with inr _ => True | inl _ => False end.

(** The detail of the 404 answer. *)
Definition not_found (session_id : string) : string :=
  ("Session '" ++ session_id ++ "' not found.")%string.

(** [d.get(k)] on a dictionary kept as a list. *)
Fixpoint dict_lookup {V} (k : string) (d : list (string * V)) : option V :=
  match d with
  | [] => None
  | (k', v) :: d' => if bool_decide (k' = k) then Some v else dict_lookup k d'
  end.

(** An insight is worth a suggestion: its confidence is not below 0.6. *)
Definition coachable (i : Insight.t) : Prop :=
  (Q2Qc (6 # 10) <= Insight.confidence i)%Qc.

(** The suggestion made of an insight. *)
Definition entry_of (i : Insight.t) : Api.coaching_entry :=
  Api.mk_coaching_entry (Insight.suggestion i) (Insight.matched_phrase i)
    (Insight.confidence i).

(** The suggestions of one category among the insights [l], in order. *)
Definition suggestions_of (c : string) (l : list Insight.t)
  : list Api.coaching_entry :=
  entry_of <$> filter (λ i, coachable i ∧ value (Insight.type i) = c) l.

(** The operations that build [demo_store], a payload with the two
    segments of the scenario, and webhook states without session: one with
    an empty idempotency cache and one that holds a response under the key
    k1. *)
Definition demo_ops : list op :=
  [AddSegments "s1" [seg_a; seg_b]; RunAnalysis "s1"].

Definition demo_payload : OmiWebhookPayload.t :=
  OmiWebhookPayload.mk "s1" [seg_a; seg_b].

Definition demo_state : Webhook.state := Webhook.mk_state SessionStore.new ∅.

Definition demo_response : WebhookResponse.t := WebhookResponse.mk "ok" "s1" 2.

Definition cached_state : Webhook.state :=
  Webhook.mk_state SessionStore.new {[ "k1" := demo_response ]}.

(** * Properties *)

(** ** The sort *)

Section SortFacts.
Context {A K : Type} (ltb : K → K → bool) (key : A → K).
Hypothesis ltb_asym : ∀ a b, ltb a b = true → ltb b a = false.
Local Abbreviation key_le := (key_le ltb key).

Lemma insert_by_Permutation x l : Py.insert_by ltb key x l ≡ₚ x :: l.
Proof.
  induction l as [|y l IH]; simpl; [done|].
  destruct (ltb (key y) (key x)); [|done].
  rewrite IH. apply Permutation_swap.
Qed.

Lemma sorted_Permutation l : Py.sorted ltb key l ≡ₚ l.
Proof.
  induction l as [|x l IH]; simpl; [done|].
  by rewrite insert_by_Permutation, IH.
Qed.

Lemma insert_by_HdRel y x l :
  key_le y x → HdRel key_le y l → HdRel key_le y (Py.insert_by ltb key x l).
Proof.
  intros Hyx Hd. destruct l as [|z l]; simpl; [by constructor|].
  destruct (ltb (key z) (key x)); constructor; [|done].
  by inversion Hd.
Qed.

Lemma insert_by_Sorted x l :
  Sorted key_le l → Sorted key_le (Py.insert_by ltb key x l).
Proof.
  induction 1 as [|y l Hs IH Hd]; simpl; [by repeat constructor|].
  destruct (ltb (key y) (key x)) eqn:E.
  - constructor; [done|]. apply insert_by_HdRel; [|done].
    by apply ltb_asym.
  - constructor; [by constructor|]. by constructor.
Qed.

Lemma sorted_Sorted l : Sorted key_le (Py.sorted ltb key l).
Proof. induction l; simpl; [constructor|by apply insert_by_Sorted]. Qed.

End SortFacts.

(** ** Facts about the rationals used as keys *)

Lemma Qc_ltb_asym (a b : Qc) : Qc_ltb a b = true → Qc_ltb b a = false.
Proof.
  unfold Qc_ltb. intros H%bool_decide_eq_true.
  apply bool_decide_eq_false. intros H'.
  exact (Qclt_not_le _ _ H (Qclt_le_weak _ _ H')).
Qed.

Lemma tuple_ltb_asym (a b : Qc * Qc) :
  Py.tuple_ltb a b = true → Py.tuple_ltb b a = false.
Proof.
  unfold Py.tuple_ltb.
  repeat case_bool_decide; try done; try congruence; intros _; exfalso;
    (eapply Qclt_not_le; [eassumption|]; by apply Qclt_le_weak).
Qed.

(** ** The session aggregate: ingestion *)

Lemma filter_none {A} (P : A → Prop) `{!∀ x, Decision (P x)} (l : list A) :
  (∀ x, x ∈ l → ¬ P x) → filter P l = [].
Proof.
  induction l as [|x l IH]; intros Hall; [done|].
  rewrite filter_cons_False by (apply Hall; left).
  apply IH. intros y Hy. apply Hall. by right.
Qed.

(** After a batch was ingested, each of its segments has its key stored. *)
Lemma add_segments_covers self segs s :
  s ∈ segs →
  SessionData.seg_key s
    ∈ SessionData.seg_key
        <$> SessionData.segments (SessionData.add_segments self segs).1.
Proof.
  intros Hs. simpl. rewrite fmap_app, elem_of_app.
  destruct (decide (SessionData.seg_key s
                      ∈ SessionData.seg_key <$> SessionData.segments self))
    as [Hin|Hout]; [by left|right].
  apply list_elem_of_fmap. exists s. split; [done|].
  apply list_elem_of_filter. split; [|done].
  by rewrite elem_of_list_to_set.
Qed.

(** Ingesting the same batch again adds nothing and changes nothing. *)
Lemma add_segments_again self segs :
  SessionData.add_segments (SessionData.add_segments self segs).1 segs
  = ((SessionData.add_segments self segs).1, 0).
Proof.
  assert (Hnil :
    filter (λ s, SessionData.seg_key s
                   ∉ (list_to_set (SessionData.seg_key <$>
                        SessionData.segments
                          (SessionData.add_segments self segs).1)
                      : gset (Qc * string))) segs = []).
  { apply filter_none. intros y Hy Hno.
    apply Hno, elem_of_list_to_set. by apply add_segments_covers. }
  unfold SessionData.add_segments at 1. rewrite Hnil. simpl.
  by rewrite app_nil_r, Nat.add_0_r.
Qed.

(** ** The registry *)

Lemma store_add_segments_lookup st sid segs :
  SessionStore._sessions (SessionStore.add_segments st sid segs).1 !! sid
  = Some (SessionData.add_segments
            (default (SessionData.new sid) (SessionStore._sessions st !! sid))
            segs).1.
Proof.
  unfold SessionStore.add_segments.
  destruct (SessionStore._sessions st !! sid) as [s|]; simpl;
    by rewrite lookup_insert_eq.
Qed.

Lemma store_add_segments_other st sid segs sid' :
  sid' ≠ sid →
  SessionStore._sessions (SessionStore.add_segments st sid segs).1 !! sid'
  = SessionStore._sessions st !! sid'.
Proof.
  intros Hne. unfold SessionStore.add_segments.
  destruct (SessionStore._sessions st !! sid); simpl;
    by rewrite lookup_insert_ne.
Qed.

Lemma store_eq (a b : SessionStore.t) :
  SessionStore._sessions a = SessionStore._sessions b → a = b.
Proof. destruct a, b; simpl; congruence. Qed.

(** C2: ingesting an identical fragment list a second time for the same
    session returns a new-fragment count of 0 and leaves the store, hence
    the session's stored fragments and its fragment count, as they were
    after the first call. *)
Theorem C2_ingest_twice_idempotent
    (st : SessionStore.t) (sid : string) (segs : list TranscriptSegment.t) :
  let r1 := SessionStore.add_segments st sid segs in
  let r2 := SessionStore.add_segments r1.1 sid segs in
  r2.2 = 0
  ∧ r2.1 = r1.1
  ∧ is_Some (SessionStore._sessions r1.1 !! sid)
  ∧ SessionData.segment_count <$> SessionStore._sessions r2.1 !! sid
    = SessionData.segment_count <$> SessionStore._sessions r1.1 !! sid
  ∧ SessionData.segments <$> SessionStore._sessions r2.1 !! sid
    = SessionData.segments <$> SessionStore._sessions r1.1 !! sid.
Proof.
  intros r1 r2.
  pose proof (store_add_segments_lookup st sid segs) as H1.
  fold r1 in H1.
  set (s0 := default (SessionData.new sid) (SessionStore._sessions st !! sid))
    in H1.
  assert (Hr2 : r2 = (r1.1, 0)).
  { unfold r2, SessionStore.add_segments at 1. rewrite H1.
    rewrite add_segments_again. f_equal. apply store_eq; simpl.
    by apply insert_id. }
  rewrite Hr2. simpl. repeat split; first [done | by rewrite H1].
Qed.

Lemma store_run_analysis_lookup st sid sid' :
  SessionStore._sessions (SessionStore.run_analysis st sid).1 !! sid'
  = match SessionStore._sessions st !! sid' with
    | Some s =>
        if decide (sid = sid') then
          Some (SessionData.mk (SessionData.session_id s)
                  (SessionData.segments s) (SessionData.segment_count s)
                  (Some (InsightEngine.analyze_segments insight_engine
                           (SessionData.ordered_segments s) sid)))
        else Some s
    | None => None
    end.
Proof.
  unfold SessionStore.run_analysis.
  destruct (SessionStore._sessions st !! sid) as [s|] eqn:E; simpl.
  - rewrite lookup_insert. destruct (decide (sid = sid')) as [<-|Hne].
    + by rewrite E.
    + by destruct (SessionStore._sessions st !! sid').
  - destruct (SessionStore._sessions st !! sid') eqn:E'; [|done].
    destruct (decide (sid = sid')) as [<-|Hne]; [congruence|done].
Qed.

(** One operation keeps every session, its stored fragments as a prefix
    of the new ones, and does not lower the count. *)
Lemma step_keeps st o sid s :
  SessionStore._sessions st !! sid = Some s →
  ∃ s', SessionStore._sessions (step st o) !! sid = Some s'
        ∧ SessionData.segments s `prefix_of` SessionData.segments s'
        ∧ (SessionData.segment_count s ≤ SessionData.segment_count s')%nat.
Proof.
  intros Hs. destruct o as [sid' segs| |sid'| | |]; unfold step;
    try (exists s; split; [done|split; [done|lia]]).
  - destruct (decide (sid = sid')) as [->|Hne].
    + rewrite store_add_segments_lookup, Hs. simpl.
      eexists. split; [done|]. simpl. split; [by apply prefix_app_r|lia].
    + rewrite store_add_segments_other by done.
      exists s. split; [done|split; [done|lia]].
  - rewrite store_run_analysis_lookup, Hs.
    destruct (decide (sid' = sid)); eexists; (split; [done|]); simpl;
      (split; [done|lia]).
Qed.

(** One operation keeps the count equal to the number of fragments. *)
Lemma step_count st o :
  (∀ sid s, SessionStore._sessions st !! sid = Some s →
            SessionData.segment_count s = length (SessionData.segments s)) →
  ∀ sid s, SessionStore._sessions (step st o) !! sid = Some s →
           SessionData.segment_count s = length (SessionData.segments s).
Proof.
  intros Inv sid s. destruct o as [sid' segs| |sid'| | |]; unfold step;
    try apply Inv.
  - destruct (decide (sid = sid')) as [->|Hne].
    + rewrite store_add_segments_lookup. intros [= <-]. simpl.
      rewrite length_app. f_equal.
      destruct (SessionStore._sessions st !! sid') as [s0|] eqn:E; simpl;
        [by eapply Inv|done].
    + rewrite store_add_segments_other by done. apply Inv.
  - rewrite store_run_analysis_lookup.
    destruct (SessionStore._sessions st !! sid) as [s0|] eqn:E; [|done].
    destruct (decide (sid' = sid)); intros [= <-]; simpl; by eapply Inv.
Qed.

Lemma run_snoc ops o : run (ops ++ [o]) = step (run ops) o.
Proof. unfold run. by rewrite foldl_app. Qed.

Lemma run_count ops :
  ∀ sid s, SessionStore._sessions (run ops) !! sid = Some s →
           SessionData.segment_count s = length (SessionData.segments s).
Proof.
  induction ops as [|o ops IH] using rev_ind.
  - intros sid s. unfold run; simpl. by rewrite lookup_empty.
  - rewrite run_snoc. by apply step_count.
Qed.

(** C6: in every store reached by a sequence of store operations, the
    segment_count of a session equals the number of fragments it holds,
    and one more operation, whichever it is, keeps the session with its
    fragments as a prefix of the new fragment list and with a
    segment_count that is not smaller. *)
Theorem C6_segment_count_is_length
    (ops : list op) (o : op) (sid : string) (s : SessionData.t) :
  SessionStore._sessions (run ops) !! sid = Some s →
  SessionData.segment_count s = length (SessionData.segments s)
  ∧ ∃ s', SessionStore._sessions (run (ops ++ [o])) !! sid = Some s'
          ∧ SessionData.segments s `prefix_of` SessionData.segments s'
          ∧ (SessionData.segment_count s ≤ SessionData.segment_count s')%nat
          ∧ SessionData.segment_count s' = length (SessionData.segments s').
Proof.
  intros Hs. split; [by eapply run_count|].
  destruct (step_keeps (run ops) o sid s Hs) as (s' & Hs' & Hpre & Hle).
  exists s'. rewrite run_snoc. repeat split; try done.
  eapply run_count. by rewrite run_snoc.
Qed.

(** C6 (witness): a store with one session of one fragment, and one more
    ingestion into it. *)
Lemma C6_segment_count_is_length_witness :
  SessionData.segment_count (SessionData.mk "s1" [seg_a] 1 None)
  = length (SessionData.segments (SessionData.mk "s1" [seg_a] 1 None))
  ∧ ∃ s', SessionStore._sessions
            (run ([AddSegments "s1" [seg_a]] ++ [AddSegments "s1" [seg_b]]))
            !! "s1" = Some s'
          ∧ SessionData.segments (SessionData.mk "s1" [seg_a] 1 None)
            `prefix_of` SessionData.segments s'
          ∧ (SessionData.segment_count (SessionData.mk "s1" [seg_a] 1 None)
             ≤ SessionData.segment_count s')%nat
          ∧ SessionData.segment_count s' = length (SessionData.segments s').
Proof.
  apply (C6_segment_count_is_length
           [AddSegments "s1" [seg_a]] (AddSegments "s1" [seg_b]) "s1"
           (SessionData.mk "s1" [seg_a] 1 None)).
  vm_compute. reflexivity.
Defined.

(** C1 (evaluation at the failing input): a batch that holds the same
    segment twice, ingested into a fresh store, stores both copies, so two
    stored fragments have equal (timestamp, text). *)
Theorem C1_duplicate_in_batch_stored :
  let r := SessionStore.add_segments SessionStore.new "s1" [dup_seg; dup_seg] in
  r.2 = 2
  ∧ SessionData.segments <$> SessionStore._sessions r.1 !! "s1"
    = Some [dup_seg; dup_seg]
  ∧ ¬ NoDup (SessionData.seg_key <$> [dup_seg; dup_seg]).
Proof.
  split; [by vm_compute|]. split; [by vm_compute|].
  intros Hnd. apply NoDup_cons in Hnd as [Hnot _]. apply Hnot. by left.
Qed.

(** ** Analysis through the registry *)

Lemma Sorted_weaken {A} (R1 R2 : A → A → Prop) (l : list A) :
  (∀ a b, R1 a b → R2 a b) → Sorted R1 l → Sorted R2 l.
Proof.
  intros Himp. induction 1 as [|x l Hs IH Hd]; constructor; [done|].
  destruct Hd; constructor. by apply Himp.
Qed.

Lemma ordered_segments_sorted (s : SessionData.t) :
  Sorted ts_le (SessionData.ordered_segments s).
Proof.
  unfold SessionData.ordered_segments.
  eapply Sorted_weaken; [|apply sorted_Sorted, Qc_ltb_asym].
  intros a b Hab. unfold key_le, Qc_ltb in Hab.
  apply bool_decide_eq_false in Hab. by apply Qcnot_lt_le.
Qed.

Lemma ordered_segments_perm (s : SessionData.t) :
  SessionData.ordered_segments s ≡ₚ SessionData.segments s.
Proof. apply sorted_Permutation. Qed.

(** C8: for an unknown session id [run_analysis] returns nothing and the
    store is unchanged; for a known one it returns the result of the
    engine on the session's fragments sorted by timestamp, the session
    then holds that result as its cached insights (its other fields and
    the other sessions as before), and [get_insights] returns it. *)
Theorem C8_run_analysis (st : SessionStore.t) (sid : string) :
  match SessionStore._sessions st !! sid with
  | None => SessionStore.run_analysis st sid = (st, None)
  | Some s =>
      let r :=
        InsightEngine.analyze_segments insight_engine
          (SessionData.ordered_segments s) sid in
      let st' := (SessionStore.run_analysis st sid).1 in
      (SessionStore.run_analysis st sid).2 = Some r
      ∧ SessionStore._sessions st' !! sid
        = Some (SessionData.mk (SessionData.session_id s)
                  (SessionData.segments s) (SessionData.segment_count s)
                  (Some r))
      ∧ SessionStore.get_insights st' sid = Some r
      ∧ (∀ sid', sid' ≠ sid →
           SessionStore._sessions st' !! sid'
           = SessionStore._sessions st !! sid')
      ∧ Sorted ts_le (SessionData.ordered_segments s)
      ∧ SessionData.ordered_segments s ≡ₚ SessionData.segments s
  end.
Proof.
  destruct (SessionStore._sessions st !! sid) as [s|] eqn:E.
  - intros r st'.
    assert (Hl : SessionStore._sessions st' !! sid
                 = Some (SessionData.mk (SessionData.session_id s)
                           (SessionData.segments s)
                           (SessionData.segment_count s) (Some r))).
    { unfold st'. rewrite store_run_analysis_lookup, E.
      by rewrite decide_True. }
    split; [unfold SessionStore.run_analysis; by rewrite E|].
    split; [done|].
    split; [unfold SessionStore.get_insights; by rewrite Hl|].
    split.
    + intros sid' Hne. unfold st'. rewrite store_run_analysis_lookup.
      destruct (SessionStore._sessions st !! sid'); [|done].
      by rewrite decide_False.
    + split; [apply ordered_segments_sorted|apply ordered_segments_perm].
  - unfold SessionStore.run_analysis. by rewrite E.
Qed.

(** ** The engine: order of the result *)

Lemma sort_key_le_insight_le (i j : Insight.t) :
  key_le Py.tuple_ltb InsightEngine.sort_key i j → insight_le i j.
Proof.
  unfold key_le, Py.tuple_ltb, InsightEngine.sort_key, insight_le; simpl.
  case_bool_decide as Heq.
  - intros Hlt%bool_decide_eq_false. right. split; [done|].
    apply Qcnot_lt_le in Hlt. apply Qcopp_le_compat in Hlt.
    by rewrite !Qcopp_involutive in Hlt.
  - intros Hlt%bool_decide_eq_false. left.
    apply Qcnot_lt_le in Hlt.
    destruct (Qcle_lt_or_eq _ _ Hlt) as [?|Heq']; [done|].
    by rewrite Heq' in Heq.
Qed.

Global Instance insight_le_trans : Transitive insight_le.
Proof.
  intros i j k [Hij|[Eij Cij]] [Hjk|[Ejk Cjk]]; unfold insight_le.
  - left. by eapply Qclt_trans.
  - left. by rewrite <- Ejk.
  - left. by rewrite Eij.
  - right. split; [congruence|]. by eapply Qcle_trans.
Qed.

(** C4: the insights of a result are sorted by timestamp ascending, a
    missing timestamp counting as 0, and insights with equal (effective)
    timestamps by confidence descending: every insight of the list is
    related in this way to every later one. The list holds the insights
    of the scan, each as many times. *)
Theorem C4_result_sorted
    (self : InsightEngine.t) (segments : list TranscriptSegment.t)
    (session_id : string) :
  let r := InsightEngine.analyze_segments self segments session_id in
  StronglySorted insight_le (SessionInsights.insights r)
  ∧ SessionInsights.insights r
    ≡ₚ (InsightEngine.scan (InsightEngine.target_segments self segments)).1.
Proof.
  simpl. split; [|apply sorted_Permutation].
  apply Sorted_StronglySorted; [apply insight_le_trans|].
  eapply Sorted_weaken; [apply sort_key_le_insight_le|].
  apply sorted_Sorted, tuple_ltb_asym.
Qed.

(** ** The engine: the sliding window *)

Lemma slice_from_neg {A} (w : Z) (l : list A) :
  (0 < w)%Z → (w < Z.of_nat (length l))%Z →
  Py.slice_from (- w) l = drop (length l - Z.to_nat w) l.
Proof.
  intros Hpos Hlt. unfold Py.slice_from.
  destruct (Z.ltb_spec (- w) 0) as [_|?]; [|lia].
  f_equal. lia.
Qed.

(** C5: with a window_size above 0 and below the number of fragments the
    scanned fragments are the last window_size ones in input order (a
    suffix of the input of that length), otherwise all the fragments are
    scanned; the result is the one of an engine without window on the
    scanned fragments; with window_size 1 and three fragments only the
    last one is scanned. *)
Theorem C5_window_scans_last
    (self : InsightEngine.t) (segments : list TranscriptSegment.t)
    (session_id : string) :
  let w := InsightEngine.window_size self in
  let targets := InsightEngine.target_segments self segments in
  ((0 < w)%Z ∧ (w < Z.of_nat (length segments))%Z →
     targets = drop (length segments - Z.to_nat w) segments
     ∧ Z.of_nat (length targets) = w
     ∧ targets `suffix_of` segments)
  ∧ (¬ ((0 < w)%Z ∧ (w < Z.of_nat (length segments))%Z) →
     targets = segments)
  ∧ InsightEngine.analyze_segments self segments session_id
    = InsightEngine.analyze_segments (InsightEngine.mk 0) targets session_id
  ∧ ∀ f1 f2 f3,
      InsightEngine.target_segments (InsightEngine.mk 1) [f1; f2; f3] = [f3].
Proof.
  intros w targets.
  assert (Hin : (0 < w)%Z ∧ (w < Z.of_nat (length segments))%Z →
                targets = drop (length segments - Z.to_nat w) segments).
  { intros [Hpos Hlt]. unfold targets, InsightEngine.target_segments.
    fold w. destruct (Z.ltb_spec 0 w); [|lia].
    destruct (Z.ltb_spec w (Z.of_nat (length segments))); [|lia].
    simpl. by apply slice_from_neg. }
  split; [|split; [|split]].
  - intros Hw. rewrite (Hin Hw). destruct Hw as [Hpos Hlt].
    split; [done|]. split; [rewrite length_drop; lia|apply suffix_drop].
  - intros Hno. unfold targets, InsightEngine.target_segments. fold w.
    destruct (Z.ltb_spec 0 w); [|done].
    destruct (Z.ltb_spec w (Z.of_nat (length segments))); [|done].
    exfalso. by apply Hno.
  - reflexivity.
  - intros f1 f2 f3. reflexivity.
Qed.

(** ** The engine: the summary *)

Lemma dict_get_add k n d c :
  Py.dict_get c (Py.dict_add k n d)
  = if decide (k = c) then Some (default 0 (Py.dict_get c d) + n)
    else Py.dict_get c d.
Proof.
  induction d as [|[k' v] d IH]; simpl.
  - case_bool_decide; case_decide; simplify_eq; done.
  - case_bool_decide as Hk; simpl; case_bool_decide as Hc;
      rewrite ?IH; case_decide; simplify_eq; done.
Qed.

Lemma dict_add_sum k n d :
  sum_list (snd <$> Py.dict_add k n d) = sum_list (snd <$> d) + n.
Proof.
  induction d as [|[k' v] d IH]; csimpl; [lia|].
  case_bool_decide; csimpl; rewrite ?IH; lia.
Qed.

Lemma dict_add_keys k n d :
  (Py.dict_add k n d).*1
  = if bool_decide (k ∈ d.*1) then d.*1 else d.*1 ++ [k].
Proof.
  induction d as [|[k' v] d IH]; csimpl; [done|].
  destruct (decide (k' = k)) as [->|Hne].
  - rewrite (bool_decide_eq_true_2 (k = k)) by done.
    rewrite (bool_decide_eq_true_2 (k ∈ k :: d.*1)) by left. done.
  - rewrite (bool_decide_eq_false_2 (k' = k)) by done. csimpl. rewrite IH.
    destruct (decide (k ∈ d.*1)) as [Hin|Hout].
    + rewrite (bool_decide_eq_true_2 (k ∈ d.*1)) by done.
      rewrite (bool_decide_eq_true_2 (k ∈ k' :: d.*1)) by (by right). done.
    + rewrite (bool_decide_eq_false_2 (k ∈ d.*1)) by done.
      rewrite (bool_decide_eq_false_2 (k ∈ k' :: d.*1)); [done|].
      intros [?|?]%elem_of_cons; congruence.
Qed.

Lemma dict_add_NoDup k n d : NoDup d.*1 → NoDup (Py.dict_add k n d).*1.
Proof.
  intros Hnd. rewrite dict_add_keys. case_bool_decide; [done|].
  apply NoDup_app. split; [done|]. split; [|apply NoDup_singleton].
  intros x Hx ->%list_elem_of_singleton. done.
Qed.

Lemma occ_cons c k ks :
  occ c (k :: ks) = (if decide (k = c) then 1 else 0) + occ c ks.
Proof.
  unfold occ. rewrite filter_cons. by destruct (decide (k = c)).
Qed.

(** The counts of a [Counter] continued from a dictionary [d]. *)
Lemma Counter_from_get c ks : ∀ d,
  Py.dict_get c (foldl (λ d k, Py.dict_add k 1 d) d ks)
  = match occ c ks with
    | 0 => Py.dict_get c d
    | n => Some (default 0 (Py.dict_get c d) + n)
    end.
Proof.
  induction ks as [|k ks IH]; intros d; [done|].
  simpl. rewrite IH, occ_cons, dict_get_add.
  destruct (decide (k = c)) as [->|Hne]; simpl.
  - destruct (occ c ks); simpl; f_equal; lia.
  - done.
Qed.

Lemma Counter_get c ks :
  Py.dict_get c (Py.Counter ks)
  = match occ c ks with 0 => None | n => Some n end.
Proof. unfold Py.Counter. rewrite Counter_from_get. by destruct (occ c ks). Qed.

Lemma Counter_sum ks : sum_list (snd <$> Py.Counter ks) = length ks.
Proof.
  unfold Py.Counter.
  assert (H : ∀ d, sum_list (snd <$> foldl (λ d k, Py.dict_add k 1 d) d ks)
                   = sum_list (snd <$> d) + length ks).
  { induction ks as [|k ks IH]; intros d; simpl; [lia|].
    rewrite IH, dict_add_sum. lia. }
  by rewrite H.
Qed.

Lemma Counter_NoDup ks : NoDup (Py.Counter ks).*1.
Proof.
  unfold Py.Counter.
  assert (H : ∀ d, NoDup d.*1 →
                   NoDup (foldl (λ d k, Py.dict_add k 1 d) d ks).*1).
  { induction ks as [|k ks IH]; intros d Hd; simpl; [done|].
    by apply IH, dict_add_NoDup. }
  apply H, NoDup_nil_2.
Qed.

Lemma value_inj : Inj (=) (=) value.
Proof. intros [] []; simpl; intros [=]; done. Qed.

Lemma occ_values ty (l : list Insight.t) :
  occ (value ty) (map (λ i, value (Insight.type i)) l) = count_type ty l.
Proof.
  unfold occ, count_type. induction l as [|i l IH]; [done|].
  simpl. rewrite !filter_cons.
  destruct (decide (value (Insight.type i) = value ty)) as [Heq|Hne].
  - apply value_inj in Heq. rewrite decide_True by done. simpl. by f_equal.
  - rewrite decide_False by congruence. done.
Qed.

Lemma occ_not_value c (l : list Insight.t) :
  (∀ ty, value ty ≠ c) → occ c (map (λ i, value (Insight.type i)) l) = 0.
Proof.
  intros Hc. unfold occ. rewrite filter_none; [done|].
  intros k Hk%list_elem_of_In Heq. apply in_map_iff in Hk as (i & <- & _).
  by eapply Hc.
Qed.

Lemma target_segments_nil (self : InsightEngine.t) :
  InsightEngine.target_segments self [] = [].
Proof.
  unfold InsightEngine.target_segments, Py.slice_from.
  destruct (_ && _); [apply drop_nil|done].
Qed.

(** C10: the result of [analyze_segments] is consistent: total_insights
    is the length of the insight list; the summary gives, for each insight
    type, the number of insights of that type in the list when there is
    one, and has no entry for a type without insight nor for any other
    key; each key occurs once; the values of the summary add up to
    total_insights; and on the empty input the list is empty, the total 0
    and the summary empty. *)
Theorem C10_result_consistent
    (self : InsightEngine.t) (segments : list TranscriptSegment.t)
    (session_id : string) :
  let r := InsightEngine.analyze_segments self segments session_id in
  SessionInsights.total_insights r = length (SessionInsights.insights r)
  ∧ (∀ ty,
       Py.dict_get (value ty) (SessionInsights.summary r)
       = match count_type ty (SessionInsights.insights r) with
         | 0 => None
         | n => Some n
         end)
  ∧ (∀ c, (∀ ty, value ty ≠ c) →
          Py.dict_get c (SessionInsights.summary r) = None)
  ∧ NoDup (SessionInsights.summary r).*1
  ∧ sum_list (SessionInsights.summary r).*2 = SessionInsights.total_insights r
  ∧ InsightEngine.analyze_segments self [] session_id
    = SessionInsights.mk session_id [] 0 [].
Proof.
  intros r. split; [done|]. split; [|split; [|split; [|split]]].
  - intros ty. unfold r; simpl. by rewrite Counter_get, occ_values.
  - intros c Hc. unfold r; simpl. by rewrite Counter_get, occ_not_value.
  - apply Counter_NoDup.
  - unfold r; simpl. by rewrite Counter_sum, length_map.
  - unfold InsightEngine.analyze_segments.
    by rewrite target_segments_nil.
Qed.

(** ** The engine: the scan *)

Lemma foldl_bind {A B C} (f : A → C → A) (g : B → list C) (l : list B) :
  ∀ a, foldl f a (l ≫= g) = foldl (λ a x, foldl f a (g x)) a l.
Proof.
  induction l as [|x l IH]; intros a; [done|].
  csimpl. by rewrite foldl_app, IH.
Qed.

Lemma foldl_fmap_list {A B C} (f : A → C → A) (h : B → C) (l : list B) :
  ∀ a, foldl f a (h <$> l) = foldl (λ a x, f a (h x)) a l.
Proof. induction l as [|x l IH]; intros a; [done|]. csimpl. by rewrite IH. Qed.

Lemma foldl_ext_in {A B} (f g : A → B → A) (l : list B) :
  (∀ a x, f a x = g a x) → ∀ a, foldl f a l = foldl g a l.
Proof.
  intros Hfg. induction l as [|x l IH]; intros a; [done|].
  simpl. by rewrite Hfg, IH.
Qed.

(** The three loops visit the candidates one after the other. *)
Lemma scan_candidates targets :
  InsightEngine.scan targets = foldl visit ([], ∅) (candidates targets).
Proof.
  unfold InsightEngine.scan, candidates. rewrite foldl_bind.
  apply foldl_ext_in. intros st seg.
  unfold InsightEngine.scan_segment. rewrite foldl_bind.
  apply foldl_ext_in. intros st' tr. by rewrite foldl_fmap_list.
Qed.

Lemma candidates_elem targets seg ty rule :
  (seg, ty, rule) ∈ candidates targets
  ↔ seg ∈ targets ∧ ∃ rules, (ty, rules) ∈ _RULE_MAP ∧ rule ∈ rules.
Proof.
  unfold candidates. rewrite list_elem_of_bind. split.
  - intros (seg' & Hc & Hseg). apply list_elem_of_bind in Hc as (tr & Hc & Htr).
    apply list_elem_of_fmap in Hc as (rule' & [= -> -> ->] & Hrule).
    split; [done|]. exists tr.2. split; [by destruct tr|done].
  - intros (Hseg & rules & Htr & Hrule). exists seg. split; [|done].
    apply list_elem_of_bind. exists (ty, rules). split; [|done].
    apply list_elem_of_fmap. by exists rule.
Qed.

(** What one visit does. *)
Lemma visit_eq st c :
  visit st c
  = if matches c
    then if bool_decide
              ((value c.1.2, Rule.phrase c.2,
                TranscriptSegment.timestamp c.1.1) ∈ st.2)
         then st
         else (st.1 ++ [InsightEngine.make_insight c.1.2 c.2 c.1.1],
               {[ (value c.1.2, Rule.phrase c.2,
                   TranscriptSegment.timestamp c.1.1) ]} ∪ st.2)
    else st.
Proof. done. Qed.

Lemma seen_ok_key st c :
  seen_ok st →
  (value c.1.2, Rule.phrase c.2, TranscriptSegment.timestamp c.1.1) ∈ st.2
  ↔ candidate_key c ∈ insight_key <$> st.1.
Proof. intros [Hseen _]. by rewrite Hseen. Qed.

Lemma seen_ok_visit st c : seen_ok st → seen_ok (visit st c).
Proof.
  intros Hok. rewrite visit_eq. destruct (matches c); [|done].
  case_bool_decide as Hin; [done|].
  rewrite (seen_ok_key _ _ Hok) in Hin. destruct Hok as [Hseen Hnd].
  split; simpl.
  - intros k. rewrite fmap_app, elem_of_app, elem_of_union, Hseen.
    rewrite elem_of_singleton. csimpl. rewrite list_elem_of_singleton.
    destruct k as [[k1 k2] k3]; simpl. split.
    + intros [[= -> -> ->]|Hold]; [by right|by left].
    + intros [Hold|Heq]; [by right|left].
      unfold insight_key in Heq; simpl in Heq. congruence.
  - rewrite fmap_app. apply NoDup_app. split; [done|].
    split; [|apply NoDup_singleton].
    intros k Hk ->%list_elem_of_singleton. by apply Hin.
Qed.

Lemma seen_ok_visits cs : ∀ st, seen_ok st → seen_ok (foldl visit st cs).
Proof.
  induction cs as [|c cs IH]; intros st Hok; [done|].
  simpl. by apply IH, seen_ok_visit.
Qed.

Lemma seen_ok_start : seen_ok ([], ∅).
Proof.
  split; simpl; [|apply NoDup_nil_2].
  intros k. rewrite elem_of_empty. split; [done|]. by intros ?%elem_of_nil.
Qed.

(** The emission rule: after the candidates [pre], the candidate [c] adds
    its insight exactly when it matches and no insight with its key is
    among those emitted for [pre]. *)
Lemma emitted_snoc pre c :
  emitted (pre ++ [c])
  = emitted pre
    ++ (if matches c
           && bool_decide (candidate_key c ∉ insight_key <$> emitted pre)
        then [InsightEngine.make_insight c.1.2 c.2 c.1.1]
        else []).
Proof.
  unfold emitted. rewrite foldl_app. simpl.
  pose proof (seen_ok_visits pre _ seen_ok_start) as Hok.
  set (st := foldl visit ([], ∅) pre) in *.
  rewrite visit_eq. destruct (matches c); simpl; [|by rewrite app_nil_r].
  destruct (decide (candidate_key c ∈ insight_key <$> st.1)) as [Hin|Hout].
  - rewrite bool_decide_eq_true_2 by (by apply (seen_ok_key _ _ Hok)).
    rewrite bool_decide_eq_false_2 by (intros Hno; by apply Hno).
    by rewrite app_nil_r.
  - rewrite bool_decide_eq_false_2
      by (intros Hin; by apply Hout, (seen_ok_key _ _ Hok)).
    by rewrite bool_decide_eq_true_2.
Qed.

Lemma emitted_prefix pre post : emitted pre `prefix_of` emitted (pre ++ post).
Proof.
  induction post as [|c post IH] using rev_ind.
  - by rewrite app_nil_r.
  - rewrite app_assoc, emitted_snoc. by apply prefix_app_r.
Qed.

Lemma emitted_NoDup cs : NoDup (insight_key <$> emitted cs).
Proof. by destruct (seen_ok_visits cs _ seen_ok_start). Qed.

(** A matching candidate has an insight with its key. *)
Lemma emitted_covers cs c :
  c ∈ cs → matches c = true →
  ∃ i, i ∈ emitted cs ∧ insight_key i = candidate_key c.
Proof.
  intros (pre & post & ->)%list_elem_of_split Hm.
  assert (Hpre : ∃ i, i ∈ emitted (pre ++ [c])
                      ∧ insight_key i = candidate_key c).
  { rewrite emitted_snoc, Hm. simpl.
    destruct (decide (candidate_key c ∈ insight_key <$> emitted pre))
      as [Hin|Hout].
    - apply list_elem_of_fmap in Hin as (i & Hk & Hi).
      exists i. split; [|done]. apply elem_of_app. by left.
    - rewrite bool_decide_eq_true_2 by done.
      exists (InsightEngine.make_insight c.1.2 c.2 c.1.1).
      split; [|done]. apply elem_of_app. right. by left. }
  destruct Hpre as (i & Hi & Hk). exists i. split; [|done].
  replace (pre ++ c :: post) with ((pre ++ [c]) ++ post)
    by (by rewrite <- app_assoc).
  destruct (emitted_prefix (pre ++ [c]) post) as [rest ->].
  apply elem_of_app. by left.
Qed.

(** An insight comes from a matching candidate and copies its fields. *)
Lemma emitted_from cs i :
  i ∈ emitted cs →
  ∃ c, c ∈ cs ∧ matches c = true
       ∧ i = InsightEngine.make_insight c.1.2 c.2 c.1.1.
Proof.
  induction cs as [|c cs IH] using rev_ind.
  - by intros ?%elem_of_nil.
  - rewrite emitted_snoc. intros [Hi|Hi]%elem_of_app.
    + destruct (IH Hi) as (c' & Hc' & Hm & ->). exists c'.
      split; [|done]. apply elem_of_app. by left.
    + destruct (matches c) eqn:Hm; simpl in Hi;
        [|by apply elem_of_nil in Hi].
      case_bool_decide; [|by apply elem_of_nil in Hi].
      apply list_elem_of_singleton in Hi as ->. exists c.
      split; [|done]. apply elem_of_app. right. by left.
Qed.

(** C3: in a run of [analyze_segments] the candidates, a scanned fragment
    with a rule of a category, are visited in order; a candidate adds a
    Finding iff the rule's phrase is in the lowercased text of the
    fragment and no Finding with the same key (category, phrase, fragment
    timestamp) was emitted before it in the run, and that Finding carries
    the rule's confidence and suggestion, the fragment's text, the rule's
    phrase and the fragment's speaker and timestamp. The result holds the
    emitted Findings, sorted. Hence no two Findings of a result share a
    key, two matching candidates with different keys (the same phrase at
    two timestamps, two phrases in one fragment) give two Findings, and
    every Finding of the result was built from a matching candidate. *)
Theorem C3_emits_first_match_per_key
    (self : InsightEngine.t) (segments : list TranscriptSegment.t)
    (session_id : string) :
  let targets := InsightEngine.target_segments self segments in
  let cs := candidates targets in
  let r := InsightEngine.analyze_segments self segments session_id in
  (∀ seg ty rule,
     (seg, ty, rule) ∈ cs
     ↔ seg ∈ targets ∧ ∃ rules, (ty, rules) ∈ _RULE_MAP ∧ rule ∈ rules)
  ∧ SessionInsights.insights r
    = Py.sorted Py.tuple_ltb InsightEngine.sort_key (emitted cs)
  ∧ SessionInsights.insights r ≡ₚ emitted cs
  ∧ (∀ pre c post, cs = pre ++ c :: post →
       emitted (pre ++ [c]) `prefix_of` emitted cs
       ∧ emitted (pre ++ [c])
         = emitted pre
           ++ (if matches c
                  && bool_decide
                       (candidate_key c ∉ insight_key <$> emitted pre)
               then [Insight.mk c.1.2 (Rule.confidence c.2)
                       (TranscriptSegment.text c.1.1) (Rule.phrase c.2)
                       (TranscriptSegment.speaker c.1.1)
                       (Some (TranscriptSegment.timestamp c.1.1))
                       (Rule.suggestion c.2)]
               else []))
  ∧ NoDup (insight_key <$> SessionInsights.insights r)
  ∧ (∀ c1 c2, c1 ∈ cs → c2 ∈ cs →
       matches c1 = true → matches c2 = true →
       candidate_key c1 ≠ candidate_key c2 →
       ∃ i1 i2, i1 ∈ SessionInsights.insights r
                ∧ i2 ∈ SessionInsights.insights r
                ∧ i1 ≠ i2
                ∧ insight_key i1 = candidate_key c1
                ∧ insight_key i2 = candidate_key c2)
  ∧ (∀ i, i ∈ SessionInsights.insights r →
       ∃ seg ty rule,
         (seg, ty, rule) ∈ cs
         ∧ matches (seg, ty, rule) = true
         ∧ i = Insight.mk ty (Rule.confidence rule)
                 (TranscriptSegment.text seg) (Rule.phrase rule)
                 (TranscriptSegment.speaker seg)
                 (Some (TranscriptSegment.timestamp seg))
                 (Rule.suggestion rule)).
Proof.
  intros targets cs r.
  assert (Hr : SessionInsights.insights r
               = Py.sorted Py.tuple_ltb InsightEngine.sort_key (emitted cs)).
  { unfold r, InsightEngine.analyze_segments; simpl.
    fold targets. by rewrite scan_candidates. }
  assert (Hp : SessionInsights.insights r ≡ₚ emitted cs).
  { rewrite Hr. apply sorted_Permutation. }
  split; [intros seg ty rule; apply candidates_elem|].
  split; [done|]. split; [done|]. split; [|split; [|split]].
  - intros pre c post Hcs. split.
    + rewrite Hcs.
      replace (pre ++ c :: post) with ((pre ++ [c]) ++ post)
        by (by rewrite <- app_assoc).
      apply emitted_prefix.
    + apply emitted_snoc.
  - rewrite Hp. apply emitted_NoDup.
  - intros c1 c2 Hc1 Hc2 Hm1 Hm2 Hne.
    destruct (emitted_covers cs c1 Hc1 Hm1) as (i1 & Hi1 & Hk1).
    destruct (emitted_covers cs c2 Hc2 Hm2) as (i2 & Hi2 & Hk2).
    exists i1, i2. rewrite Hp. repeat split; try done. congruence.
  - intros i Hi. rewrite Hp in Hi.
    destruct (emitted_from cs i Hi) as ([[seg ty] rule] & Hc & Hm & ->).
    by exists seg, ty, rule.
Qed.

(** The scenario of the specification: one pricing objection at 1 and one
    buying signal at 2. *)
Example analyze_scenario :
  InsightEngine.analyze_segments insight_engine
    [TranscriptSegment.mk "too expensive" None false (Q2Qc 1);
     TranscriptSegment.mk "send me a proposal" None false (Q2Qc 2)] "s1"
  = SessionInsights.mk "s1"
      [Insight.mk PRICING_OBJECTION (Q2Qc (9 # 10)) "too expensive"
         "too expensive" None (Some (Q2Qc 1))
         "Acknowledge the concern, then pivot to ROI and value delivered.";
       Insight.mk BUYING_SIGNAL (Q2Qc (95 # 100)) "send me a proposal"
         "send me a proposal" None (Some (Q2Qc 2))
         "Prepare and send the proposal within 24 hours. Strike while interest is hot."]
      2 [("pricing_objection", 1); ("buying_signal", 1)].
Proof. vm_compute. reflexivity. Qed.

(** ** The insights endpoint *)

Lemma filter_ext_in {A} (P Q : A → Prop)
    `{!∀ x, Decision (P x), !∀ x, Decision (Q x)} (l : list A) :
  (∀ x, x ∈ l → P x ↔ Q x) → filter P l = filter Q l.
Proof.
  induction l as [|x l IH]; intros Hpq; [done|].
  assert (Hx : P x ↔ Q x) by (apply Hpq; left).
  assert (Hl : filter P l = filter Q l).
  { apply IH. intros y Hy. apply Hpq. by right. }
  destruct (decide (P x)) as [Hp|Hp].
  - rewrite !filter_cons_True by tauto. by rewrite Hl.
  - rewrite !filter_cons_False by tauto. done.
Qed.

Lemma filter_all {A} (P : A → Prop) `{!∀ x, Decision (P x)} (l : list A) :
  (∀ x, x ∈ l → P x) → filter P l = l.
Proof.
  induction l as [|x l IH]; intros Hall; [done|].
  rewrite filter_cons_True by (apply Hall; left).
  f_equal. apply IH. intros y Hy. apply Hall. by right.
Qed.

(** The confidences of the catalog are in range. *)
Lemma catalog_confidence_valid :
  Forall (λ tr : InsightType * list Rule.t,
            Forall (λ rule, (0 <= Rule.confidence rule)%Qc
                            ∧ (Rule.confidence rule <= 1)%Qc) tr.2)
    _RULE_MAP.
Proof. apply (bool_decide_unpack _). by vm_compute. Qed.

Lemma analyze_confidence_valid self segments session_id :
  Forall confidence_valid
    (SessionInsights.insights
       (InsightEngine.analyze_segments self segments session_id)).
Proof.
  apply Forall_forall. intros i Hi.
  unfold InsightEngine.analyze_segments in Hi; simpl in Hi.
  rewrite sorted_Permutation, scan_candidates in Hi.
  apply emitted_from in Hi as ([[seg ty] rule] & Hc & _ & ->).
  apply candidates_elem in Hc as (_ & rules & Htr & Hrule).
  pose proof catalog_confidence_valid as Hcat.
  rewrite Forall_forall in Hcat. specialize (Hcat _ Htr). simpl in Hcat.
  rewrite Forall_forall in Hcat. exact (Hcat _ Hrule).
Qed.

(** The two filters of the endpoint, one after the other. *)
Lemma endpoint_filters type min_confidence (l : list Insight.t) :
  Forall confidence_valid l →
  (let filtered :=
     match type with
     | Some ty => filter (λ i, Insight.type i = ty) l
     | None => l
     end in
   if bool_decide (0 < min_confidence)%Qc
   then filter (λ i, (min_confidence <= Insight.confidence i)%Qc) filtered
   else filtered)
  = filter (keeps type min_confidence) l.
Proof.
  intros Hvalid. rewrite Forall_forall in Hvalid. simpl.
  assert (Hlow : ¬ (0 < min_confidence)%Qc →
                 ∀ i, i ∈ l → (min_confidence <= Insight.confidence i)%Qc).
  { intros Hno i Hi. apply Qcnot_lt_le in Hno.
    eapply Qcle_trans; [exact Hno|]. by apply Hvalid. }
  case_bool_decide as Hpos; destruct type as [ty|].
  - rewrite list_filter_filter. apply list_filter_iff.
    intros i. unfold keeps. tauto.
  - apply list_filter_iff. intros i. unfold keeps. tauto.
  - apply filter_ext_in. intros i Hi. unfold keeps.
    pose proof (Hlow Hpos i Hi). tauto.
  - symmetry. apply filter_all. intros i Hi. split; [done|].
    by apply Hlow.
Qed.

(** C9: for an existing session, [get_insights] of the endpoint answers
    with exactly the insights of the cached set, or of a fresh analysis
    when nothing is cached, that have the type asked for (when one is) and
    a confidence of at least min_confidence, in their order, with their
    number as total and a summary counted over these insights only; the
    cached set is the same after the request, and the store itself is
    untouched when a set was cached. *)
Theorem C9_get_insights_filters
    (store : SessionStore.t) (sid : string) (s : SessionData.t)
    (type : option InsightType) (min_confidence : Qc) :
  SessionStore._sessions store !! sid = Some s →
  (∀ cached, SessionData.latest_insights s = Some cached →
             Forall confidence_valid (SessionInsights.insights cached)) →
  let base := base_insights s sid in
  let kept :=
    filter (keeps type min_confidence) (SessionInsights.insights base) in
  let res := Api.get_insights store sid type min_confidence in
  res.2
  = inr (SessionInsights.mk sid kept (length kept)
           (Py.Counter (map (λ i, value (Insight.type i)) kept)))
  ∧ (∀ i, i ∈ kept
          ↔ i ∈ SessionInsights.insights base ∧ keeps type min_confidence i)
  ∧ (∀ ty,
       Py.dict_get (value ty)
         (Py.Counter (map (λ i, value (Insight.type i)) kept))
       = match count_type ty kept with 0 => None | n => Some n end)
  ∧ SessionStore.get_insights res.1 sid = Some base
  ∧ (is_Some (SessionData.latest_insights s) → res.1 = store)
  ∧ (SessionData.latest_insights s = None →
     res.1 = (SessionStore.run_analysis store sid).1).
Proof.
  intros Hs Hvalid base kept res.
  assert (Hbase : Forall confidence_valid (SessionInsights.insights base)).
  { unfold base, base_insights.
    destruct (SessionData.latest_insights s) as [cached|] eqn:E;
      [by apply Hvalid|apply analyze_confidence_valid]. }
  assert (Hres :
    res = (match SessionData.latest_insights s with
           | Some _ => store
           | None => (SessionStore.run_analysis store sid).1
           end,
           inr (SessionInsights.mk sid kept (length kept)
                  (Py.Counter (map (λ i, value (Insight.type i)) kept))))).
  { unfold res, Api.get_insights, SessionStore.get_session.
    rewrite Hs. unfold SessionStore.get_insights. rewrite Hs.
    pose proof (endpoint_filters type min_confidence _ Hbase) as Hf.
    simpl in Hf. fold kept in Hf.
    unfold base, base_insights in Hf.
    destruct (SessionData.latest_insights s) as [cached|] eqn:E.
    - by rewrite Hf.
    - unfold SessionStore.run_analysis. rewrite Hs. by rewrite Hf. }
  rewrite Hres. simpl.
  split; [done|]. split; [|split; [|split; [|split]]].
  - intros i. unfold kept. rewrite list_elem_of_filter. tauto.
  - intros ty. by rewrite Counter_get, occ_values.
  - unfold SessionStore.get_insights, base, base_insights.
    destruct (SessionData.latest_insights s) as [cached|] eqn:E.
    + by rewrite Hs.
    + rewrite store_run_analysis_lookup, Hs. by rewrite decide_True.
  - intros [cached E]. by rewrite E.
  - intros E. by rewrite E.
Qed.

(** C9 (witness): in the scenario of the specification a min_confidence
    of 0.92 leaves the buying signal only, with a summary counting it. *)
Lemma C9_get_insights_filters_witness :
  (Api.get_insights demo_store "s1" None (Q2Qc (92 # 100))).2
  = inr (SessionInsights.mk "s1"
           [Insight.mk BUYING_SIGNAL (Q2Qc (95 # 100)) "Send me a proposal"
              "send me a proposal" None (Some (Q2Qc 2))
              "Prepare and send the proposal within 24 hours. Strike while interest is hot."]
           1 [("buying_signal", 1)]).
Proof.
  destruct (C9_get_insights_filters demo_store "s1" demo_session None
              (Q2Qc (92 # 100))) as [Hres _].
  - vm_compute. reflexivity.
  - intros cached [= <-]. apply analyze_confidence_valid.
  - rewrite Hres. vm_compute. reflexivity.
Defined.

(** ** Speaker statistics *)

Section DictOf.
Context {A : Type} (k : A → string) (w : A → nat).

Lemma dict_of_snoc d0 l x :
  dict_of k w d0 (l ++ [x]) = Py.dict_add (k x) (w x) (dict_of k w d0 l).
Proof. unfold dict_of. by rewrite foldl_app. Qed.



Lemma dict_of_NoDup l : NoDup (dict_of k w [] l).*1.
Proof.
  induction l as [|x l IH] using rev_ind; [apply NoDup_nil_2|].
  rewrite dict_of_snoc. by apply dict_add_NoDup.
Qed.

Lemma dict_of_sum l : sum_list (dict_of k w [] l).*2 = sum_list (w <$> l).
Proof.
  induction l as [|x l IH] using rev_ind; [done|].
  rewrite dict_of_snoc, dict_add_sum, IH, fmap_app, sum_list_with_app.
  csimpl. lia.
Qed.

End DictOf.

(** An entry of a dictionary without repeated key is what [dict_get]
    finds. *)
Lemma dict_get_elem c v (d : list (string * nat)) :
  NoDup d.*1 → (c, v) ∈ d → Py.dict_get c d = Some v.
Proof.
  induction d as [|[c' v'] d IH]; csimpl; intros Hnd Hin.
  - by apply elem_of_nil in Hin.
  - apply NoDup_cons in Hnd as [Hc' Hnd].
    apply elem_of_cons in Hin as [[= <- <-]|Hin].
    + by rewrite bool_decide_eq_true_2.
    + rewrite bool_decide_eq_false_2; [by apply IH|].
      intros ->. apply Hc'. apply list_elem_of_fmap. by exists (c, v).
Qed.

(** The words of [split]: none is empty or holds whitespace, and together
    they are the text without its whitespace. *)
Lemma flush_tokens cur acc :
  Forall (λ c, Py.isspace c = false) cur → Forall is_token acc →
  Forall is_token (Py.flush cur acc).
Proof.
  intros Hcur Hacc. destruct cur as [|c cur]; [done|].
  unfold Py.flush. constructor; [|done]. split.
  - intros Hnil. apply (f_equal list_ascii_of_string) in Hnil.
    rewrite list_ascii_of_string_of_list_ascii in Hnil. simpl in Hnil.
    by destruct (rev cur).
  - rewrite list_ascii_of_string_of_list_ascii.
    apply Forall_forall. intros x Hx. rewrite Forall_forall in Hcur.
    apply Hcur, list_elem_of_In. apply list_elem_of_In in Hx.
    by apply in_rev in Hx.
Qed.

Lemma split_aux_tokens s : ∀ cur,
  Forall (λ c, Py.isspace c = false) cur →
  Forall is_token (Py.split_aux s cur).
Proof.
  induction s as [|c s IH]; intros cur Hcur; simpl.
  - by apply flush_tokens.
  - destruct (Py.isspace c) eqn:E.
    + apply flush_tokens; [done|]. by apply IH.
    + apply IH. by constructor.
Qed.

Lemma split_aux_chars s : ∀ cur,
  mjoin (list_ascii_of_string <$> Py.split_aux s cur)
  = rev cur ++ filter (λ c, Py.isspace c = false) (list_ascii_of_string s).
Proof.
  induction s as [|c s IH]; intros cur; simpl.
  - destruct cur; simpl; [done|].
    rewrite list_ascii_of_string_of_list_ascii. by rewrite !app_nil_r.
  - destruct (Py.isspace c) eqn:E.
    + rewrite filter_cons_False by (by rewrite E).
      destruct cur; simpl; [apply IH|]. csimpl. rewrite IH.
      by rewrite list_ascii_of_string_of_list_ascii.
    + rewrite filter_cons_True by done. rewrite IH. simpl.
      by rewrite <- app_assoc.
Qed.

Lemma split_tokens (s : string) :
  Forall is_token (Py.split s)
  ∧ mjoin (list_ascii_of_string <$> Py.split s)
    = filter (λ c, Py.isspace c = false) (list_ascii_of_string s).
Proof.
  split; [by apply split_aux_tokens|]. unfold Py.split.
  by rewrite split_aux_chars.
Qed.



(** The loop of [get_speaker_stats] fills the two dictionaries side by
    side. *)
Lemma count_segments_dicts segs : ∀ d,
  foldl SessionData.count_segment d segs
  = (dict_of SessionData._speaker_label (λ _, 1) d.1 segs,
     dict_of SessionData._speaker_label SessionData.word_count_of d.2 segs).
Proof.
  induction segs as [|seg segs IH]; intros [d1 d2]; [done|].
  simpl. by rewrite IH.
Qed.

Lemma get_speaker_stats_eq (self : SessionData.t) :
  let segs := SessionData.segments self in
  let speaker_segments := dict_of SessionData._speaker_label (λ _, 1) [] segs in
  let speaker_words :=
    dict_of SessionData._speaker_label SessionData.word_count_of [] segs in
  SessionData.get_speaker_stats self
  = (λ sw : string * nat,
       SpeakerStats.mk sw.1
         (default 0 (Py.dict_get sw.1 speaker_segments)) sw.2
         (SessionData.talk_ratio_of sw.2
            (SessionData.total_words_or_1 speaker_words)))
    <$> speaker_words.
Proof.
  simpl. unfold SessionData.get_speaker_stats.
  by rewrite count_segments_dicts.
Qed.

Lemma sum_list_ones {A} (l : list A) : sum_list ((λ _, 1) <$> l) = length l.
Proof. induction l; csimpl; [done|]. by f_equal. Qed.



Example split_words :
  Py.split "  price  is	a concern " = ["price"; "is"; "a"; "concern"].
Proof. reflexivity. Qed.

Example strip_label : Py.strip "  SPEAKER_01 " = "SPEAKER_01".
Proof. reflexivity. Qed.

(** ** Deduplication against the stored fragments *)

(** When the stored fragments have distinct (timestamp, text) keys and so
    have the fragments of the batch, the stored fragments still have
    distinct keys after [add_segments]; a fragment of the batch is
    appended exactly when its key was not stored before. *)
Theorem add_segments_keeps_unique
    (self : SessionData.t) (batch : list TranscriptSegment.t) :
  NoDup (SessionData.seg_key <$> SessionData.segments self) →
  NoDup (SessionData.seg_key <$> batch) →
  let r := SessionData.add_segments self batch in
  NoDup (SessionData.seg_key <$> SessionData.segments r.1)
  ∧ r.2
    = length (filter (λ s, SessionData.seg_key s
                           ∉ SessionData.seg_key <$> SessionData.segments self)
                batch)
  ∧ ∀ s, s ∈ batch →
         (SessionData.seg_key s
            ∉ SessionData.seg_key <$> SessionData.segments self
          ↔ s ∈ drop (length (SessionData.segments self))
                  (SessionData.segments r.1)).
Proof.
  intros Hstored Hbatch r.
  assert (Hfilter :
    filter (λ s, SessionData.seg_key s
                 ∉ (list_to_set (SessionData.seg_key
                                   <$> SessionData.segments self)
                    : gset (Qc * string))) batch
    = filter (λ s, SessionData.seg_key s
                   ∉ SessionData.seg_key <$> SessionData.segments self)
        batch).
  { apply list_filter_iff. intros s. by rewrite elem_of_list_to_set. }
  unfold r, SessionData.add_segments; simpl. rewrite Hfilter.
  split; [|split; [done|]].
  - rewrite fmap_app. apply NoDup_app. split; [done|]. split.
    + intros k Hk Hk'. apply list_elem_of_fmap in Hk' as (s & -> & Hs).
      apply list_elem_of_filter in Hs as [Hno _]. by apply Hno.
    + apply (sublist_NoDup _ (SessionData.seg_key <$> batch)); [done|].
      apply fmap_sublist, sublist_filter.
  - intros s Hs. rewrite drop_app_length, list_elem_of_filter. tauto.
Qed.

Lemma add_segments_keeps_unique_witness :
  let r := SessionData.add_segments (SessionData.mk "s1" [seg_a] 1 None)
             [seg_a; seg_b] in
  NoDup (SessionData.seg_key <$> SessionData.segments r.1)
  ∧ r.2
    = length (filter (λ s, SessionData.seg_key s
                           ∉ SessionData.seg_key <$> [seg_a])
                [seg_a; seg_b])
  ∧ ∀ s, s ∈ [seg_a; seg_b] →
         (SessionData.seg_key s ∉ SessionData.seg_key <$> [seg_a]
          ↔ s ∈ drop 1 (SessionData.segments r.1)).
Proof.
  apply (add_segments_keeps_unique (SessionData.mk "s1" [seg_a] 1 None)
           [seg_a; seg_b]);
    apply (bool_decide_unpack _); by vm_compute.
Defined.

(** * Further properties of the store, the transcripts and the routers *)

(** ** Time order and duration *)

Section SortStable.
Context {A K : Type} `{!EqDecision K} (ltb : K → K → bool) (key : A → K).
Hypothesis ltb_irrefl : ∀ a, ltb a a = false.

Lemma insert_by_filter_key k x l :
  filter (λ y, key y = k) (Py.insert_by ltb key x l)
  = filter (λ y, key y = k) (x :: l).
Proof.
  induction l as [|y l IH]; [done|]. simpl.
  destruct (ltb (key y) (key x)) eqn:E; [|done].
  rewrite filter_cons, IH, !filter_cons.
  destruct (decide (key y = k)) as [Hy|Hy]; [|done].
  destruct (decide (key x = k)) as [Hx|Hx]; [|done].
  rewrite Hy, Hx, ltb_irrefl in E. done.
Qed.

Lemma sorted_filter_key k l :
  filter (λ y, key y = k) (Py.sorted ltb key l) = filter (λ y, key y = k) l.
Proof.
  induction l as [|x l IH]; [done|]. simpl.
  by rewrite insert_by_filter_key, !filter_cons, IH.
Qed.
End SortStable.

Lemma Qc_ltb_irrefl (a : Qc) : Qc_ltb a a = false.
Proof.
  apply bool_decide_eq_false. intros H.
  apply (Qclt_not_le _ _ H), Qcle_refl.
Qed.

Global Instance ts_le_trans : Transitive ts_le.
Proof. intros a b c. unfold ts_le. apply Qcle_trans. Qed.

(** X2: [ordered_segments] holds the stored segments, each as many times,
    with timestamps that never decrease, and it is stable: the segments
    of one timestamp are in the order in which they are stored. *)
Theorem ordered_segments_stable_sort (s : SessionData.t) :
  StronglySorted ts_le (SessionData.ordered_segments s)
  ∧ SessionData.ordered_segments s ≡ₚ SessionData.segments s
  ∧ ∀ t, filter (λ x, TranscriptSegment.timestamp x = t)
           (SessionData.ordered_segments s)
         = filter (λ x, TranscriptSegment.timestamp x = t)
             (SessionData.segments s).
Proof.
  split; [|split].
  - apply Sorted_StronglySorted; [apply ts_le_trans|].
    apply ordered_segments_sorted.
  - apply ordered_segments_perm.
  - intros t. apply sorted_filter_key, Qc_ltb_irrefl.
Qed.

Lemma StronglySorted_last (l : list TranscriptSegment.t) d x :
  StronglySorted ts_le l → x ∈ l → ts_le x (List.last l d).
Proof.
  intros Hs. revert d x. induction Hs as [|y l Hs IH Hall]; intros d x Hx.
  - by apply elem_of_nil in Hx.
  - destruct l as [|z l]; simpl.
    + apply list_elem_of_singleton in Hx as ->. unfold ts_le. apply Qcle_refl.
    + apply elem_of_cons in Hx as [->|Hx].
      * rewrite Forall_forall in Hall. 
        eapply ts_le_trans; [apply (Hall z); by left|]. apply IH. by left.
      * by apply IH.
Qed.

Lemma last_elem {A} (l : list A) d : l ≠ [] → List.last l d ∈ l.
Proof.
  induction l as [|x l IH]; [done|]. intros _.
  destruct l as [|y l]; [by left|]. right. by apply IH.
Qed.

Lemma Qc_sub_le (a b c d : Qc) :
  (a <= c)%Qc → (d <= b)%Qc → (a - b <= c - d)%Qc.
Proof.
  intros H1 H2. unfold Qcminus. apply Qcplus_le_compat; [done|].
  by apply Qcopp_le_compat.
Qed.

(** X3: [duration] is [None] exactly below two segments; from two
    segments on it is the timestamp of some stored segment minus the
    timestamp of another, it is not negative, and no difference of two
    stored timestamps exceeds it. *)
Theorem duration_is_span (s : SessionData.t) :
  (length (SessionData.segments s) < 2 → SessionData.duration s = None)
  ∧ (2 ≤ length (SessionData.segments s) →
     ∃ d first last,
       SessionData.duration s = Some d
       ∧ first ∈ SessionData.segments s ∧ last ∈ SessionData.segments s
       ∧ d = (TranscriptSegment.timestamp last
              - TranscriptSegment.timestamp first)%Qc
       ∧ (0 <= d)%Qc
       ∧ ∀ a b, a ∈ SessionData.segments s → b ∈ SessionData.segments s →
                (TranscriptSegment.timestamp a - TranscriptSegment.timestamp b
                 <= d)%Qc).
Proof.
  assert (Hsorted : StronglySorted ts_le (SessionData.ordered_segments s)).
  { apply Sorted_StronglySorted; [apply ts_le_trans|].
    apply ordered_segments_sorted. }
  pose proof (ordered_segments_perm s) as Hperm.
  unfold SessionData.duration. split.
  - intros Hlt. by rewrite (proj2 (Nat.ltb_lt _ _) Hlt).
  - intros Hge. rewrite (proj2 (Nat.ltb_ge _ _) Hge).
    destruct (SessionData.ordered_segments s) as [|first rest] eqn:E.
    { apply Permutation_length in Hperm. simpl in Hperm. lia. }
    set (lst := List.last (first :: rest) first).
    assert (Hlast : lst ∈ first :: rest) by (by apply last_elem).
    assert (Hmax : ∀ x, x ∈ first :: rest → ts_le x lst).
    { intros x Hx. by apply StronglySorted_last. }
    assert (Hmin : ∀ x, x ∈ first :: rest → ts_le first x).
    { intros x [->|Hx]%elem_of_cons; [unfold ts_le; apply Qcle_refl|].
      apply StronglySorted_inv in Hsorted as [_ Hall].
      rewrite Forall_forall in Hall. by apply Hall. }
    exists (TranscriptSegment.timestamp lst - TranscriptSegment.timestamp first)%Qc,
      first, lst.
    split; [done|]. split; [rewrite <- Hperm; by left|].
    split; [by rewrite <- Hperm|]. split; [done|]. split.
    + rewrite <- (Qcplus_opp_r (TranscriptSegment.timestamp first)).
      apply Qc_sub_le; [apply Hmin, Hlast|apply Qcle_refl].
    + intros a b Ha Hb. rewrite <- Hperm in Ha, Hb.
      apply Qc_sub_le; [by apply Hmax|by apply Hmin].
Qed.

(** ** Summary and talk ratios *)

(** The keys of a dictionary of counters do not depend on the amounts. *)
Lemma dict_add_keys_weight k n m (d1 d2 : list (string * nat)) :
  d1.*1 = d2.*1 → (Py.dict_add k n d1).*1 = (Py.dict_add k m d2).*1.
Proof. intros H. by rewrite !dict_add_keys, H. Qed.

Lemma dict_of_keys_weight {A} (k : A → string) (w1 w2 : A → nat) l :
  (dict_of k w1 [] l).*1 = (dict_of k w2 [] l).*1.
Proof.
  induction l as [|x l IH] using rev_ind; [done|].
  rewrite !dict_of_snoc. by apply dict_add_keys_weight.
Qed.

Lemma dict_get_values (d : list (string * nat)) :
  NoDup d.*1 → (λ k, default 0 (Py.dict_get k d)) <$> d.*1 = d.*2.
Proof.
  intros Hnd. rewrite <- list_fmap_compose.
  apply list_fmap_ext. intros i [k v] Hkv. simpl.
  rewrite (dict_get_elem k v); [done|done|]. by eapply list_elem_of_lookup_2.
Qed.

Lemma speaker_counts_lists (s : SessionData.t) :
  let segs := SessionData.segments s in
  let stats := SessionData.get_speaker_stats s in
  SpeakerStats.word_count <$> stats
  = (dict_of SessionData._speaker_label SessionData.word_count_of [] segs).*2
  ∧ SpeakerStats.segment_count <$> stats
    = (dict_of SessionData._speaker_label (λ _, 1) [] segs).*2.
Proof.
  intros segs stats. unfold stats. rewrite get_speaker_stats_eq. fold segs.
  set (d1 := dict_of SessionData._speaker_label (λ _, 1) [] segs).
  set (d2 := dict_of SessionData._speaker_label SessionData.word_count_of [] segs).
  split.
  - by rewrite <- list_fmap_compose.
  - rewrite <- list_fmap_compose.
    assert (Hk : d1.*1 = d2.*1) by apply dict_of_keys_weight.
    rewrite <- (dict_get_values d1) by apply dict_of_NoDup.
    rewrite Hk. by rewrite <- list_fmap_compose.
Qed.

(** X4: in a store reached by store operations the summary of a session
    is consistent: total_segments is the number of stored segments and the
    sum of the speakers' segment counts, and total_words is the sum of the
    speakers' word counts. *)
Theorem summary_totals_consistent
    (ops : list op) (sid : string) (s : SessionData.t) :
  SessionStore._sessions (run ops) !! sid = Some s →
  let sm := SessionData.get_summary s in
  SessionSummary.total_segments sm = length (SessionData.segments s)
  ∧ SessionSummary.total_segments sm
    = sum_list (SpeakerStats.segment_count <$> SessionSummary.speakers sm)
  ∧ SessionSummary.total_words sm
    = sum_list (SpeakerStats.word_count <$> SessionSummary.speakers sm).
Proof.
  intros Hs sm. pose proof (run_count ops sid s Hs) as Hcount.
  destruct (speaker_counts_lists s) as [Hw Hc]. simpl in *.
  split; [done|]. split.
  - rewrite Hc, dict_of_sum, sum_list_ones. done.
  - rewrite Hw, dict_of_sum. done.
Qed.

Lemma summary_totals_consistent_witness :
  let sm := SessionData.get_summary demo_session in
  SessionSummary.total_segments sm = length (SessionData.segments demo_session)
  ∧ SessionSummary.total_segments sm
    = sum_list (SpeakerStats.segment_count <$> SessionSummary.speakers sm)
  ∧ SessionSummary.total_words sm
    = sum_list (SpeakerStats.word_count <$> SessionSummary.speakers sm).
Proof.
  apply (summary_totals_consistent demo_ops "s1" demo_session).
  vm_compute. reflexivity.
Defined.











(** ** Transcripts *)

Lemma format_segments_maps segs : ∀ acc,
  foldl SessionData.format_segment acc segs
  = (acc.1 ++ (line_of <$> segs), acc.2 ++ (plain_line_of <$> segs)).
Proof.
  induction segs as [|seg segs IH]; intros [ls ps]; simpl.
  - by rewrite !app_nil_r.
  - rewrite IH. simpl. by rewrite <- !app_assoc.
Qed.

Lemma join_empty_iff sep (parts : list string) :
  Forall (λ p, p ≠ "") parts → Py.join sep parts = "" ↔ parts = [].
Proof.
  intros Hne. split; [|by intros ->].
  destruct parts as [|p parts]; [done|].
  apply Forall_cons in Hne as [Hp _]. intros Hj. exfalso.
  destruct parts; simpl in Hj; [done|]. by destruct p.
Qed.

Lemma lines_sorted (l : list TranscriptSegment.t) :
  StronglySorted ts_le l → StronglySorted line_le (line_of <$> l).
Proof.
  induction 1 as [|x l Hs IH Hall]; csimpl; constructor; [done|].
  apply Forall_fmap. eapply Forall_impl; [exact Hall|]. done.
Qed.

(** X6: the formatted transcript carries the session id and one line for
    each stored segment, with its normalized label, text, timestamp and
    user flag; the lines are in time order; the plain text joins the
    [[label]: text] parts of the ordered segments with line feeds and is
    empty exactly when the session has no segment. *)
Theorem formatted_transcript_lines (s : SessionData.t) :
  let ft := SessionData.get_formatted_transcript s in
  FormattedTranscript.session_id ft = SessionData.session_id s
  ∧ FormattedTranscript.lines ft ≡ₚ line_of <$> SessionData.segments s
  ∧ length (FormattedTranscript.lines ft) = length (SessionData.segments s)
  ∧ StronglySorted line_le (FormattedTranscript.lines ft)
  ∧ FormattedTranscript.plain_text ft
    = Py.join Py.newline
        (plain_line_of <$> SessionData.ordered_segments s)
  ∧ (FormattedTranscript.plain_text ft = "" ↔ SessionData.segments s = []).
Proof.
  intros ft.
  assert (Hft : ft = FormattedTranscript.mk (SessionData.session_id s)
                       (line_of <$> SessionData.ordered_segments s)
                       (Py.join Py.newline
                          (plain_line_of <$> SessionData.ordered_segments s))).
  { unfold ft, SessionData.get_formatted_transcript.
    by rewrite format_segments_maps. }
  pose proof (ordered_segments_perm s) as Hperm.
  rewrite Hft. simpl. split; [done|]. split; [by rewrite Hperm|].
  split; [by rewrite length_fmap, Hperm|]. split; [|split; [done|]].
  - assert (Hs : StronglySorted ts_le (SessionData.ordered_segments s)).
    { apply Sorted_StronglySorted; [|apply ordered_segments_sorted].
      intros a b c. unfold ts_le. apply Qcle_trans. }
    by apply lines_sorted.
  - rewrite join_empty_iff.
    + split; intros H.
      * apply fmap_nil_inv in H. rewrite H in Hperm.
        symmetry. by apply Permutation_nil_l.
      * rewrite H in Hperm. apply Permutation_nil_r in Hperm.
        by rewrite Hperm.
    + apply Forall_fmap, Forall_forall. intros seg _. done.
Qed.

Lemma flush_app_r cur (x y : list string) :
  Py.flush cur (x ++ y) = Py.flush cur x ++ y.
Proof. by destruct cur. Qed.

Lemma split_aux_space (a b : string) : ∀ cur,
  Py.split_aux (a ++ String " " b)%string cur
  = Py.split_aux a cur ++ Py.split_aux b [].
Proof.
  induction a as [|c a IH]; intros cur; simpl.
  - apply (flush_app_r cur []).
  - destruct (Py.isspace c); [|apply IH].
    by rewrite IH, flush_app_r.
Qed.

Lemma split_join_space (parts : list string) :
  Py.split (Py.join " " parts) = mjoin (Py.split <$> parts).
Proof.
  induction parts as [|p parts IH]; [done|].
  destruct parts as [|p' parts].
  - csimpl. by rewrite app_nil_r.
  - change (Py.join " " (p :: p' :: parts))
      with (p ++ String " " (Py.join " " (p' :: parts)))%string.
    unfold Py.split at 1. rewrite split_aux_space.
    fold (Py.split p) (Py.split (Py.join " " (p' :: parts))).
    by rewrite IH.
Qed.

(** X7: the words of [full_transcript] are the words of the texts of the
    segments in time order, one text after the other, so their number is
    the total_words of the summary. *)
Theorem full_transcript_words (s : SessionData.t) :
  Py.split (SessionData.full_transcript s)
  = mjoin ((λ seg, Py.split (TranscriptSegment.text seg))
             <$> SessionData.ordered_segments s)
  ∧ length (Py.split (SessionData.full_transcript s))
    = SessionSummary.total_words (SessionData.get_summary s).
Proof.
  assert (H : Py.split (SessionData.full_transcript s)
              = mjoin ((λ seg, Py.split (TranscriptSegment.text seg))
                         <$> SessionData.ordered_segments s)).
  { unfold SessionData.full_transcript.
    by rewrite split_join_space, <- list_fmap_compose. }
  split; [done|]. rewrite H. simpl.
  rewrite <- (ordered_segments_perm s).
  generalize (SessionData.ordered_segments s). intros l.
  induction l as [|seg l IH]; [done|].
  csimpl. rewrite length_app, IH. done.
Qed.

(** ** The registry: listing, statistics, isolation and cache *)

(** X8: [list_sessions] lists each id once, and exactly the ids for which
    [get_session] finds a session; active_sessions is the number of listed
    ids and total_segments the sum of their segment counts. *)
Theorem list_sessions_known (st : SessionStore.t) :
  NoDup (SessionStore.list_sessions st)
  ∧ (∀ sid, sid ∈ SessionStore.list_sessions st
            ↔ is_Some (SessionStore.get_session st sid))
  ∧ (SessionStore.get_stats st).1 = length (SessionStore.list_sessions st)
  ∧ (SessionStore.get_stats st).2
    = sum_list ((λ sid, default 0 (SessionData.segment_count
                                     <$> SessionStore.get_session st sid))
                  <$> SessionStore.list_sessions st).
Proof.
  unfold SessionStore.list_sessions, SessionStore.get_stats,
    SessionStore.get_session. simpl.
  split; [apply NoDup_fst_map_to_list|]. split; [|split].
  - intros sid. rewrite list_elem_of_fmap. split.
    + intros ([k s] & -> & Hks). apply elem_of_map_to_list in Hks. by exists s.
    + intros [s Hs]. exists (sid, s). split; [done|].
      by apply elem_of_map_to_list.
  - by rewrite length_fmap, length_map_to_list.
  - rewrite <- list_fmap_compose. f_equal. apply list_fmap_ext.
    intros i [k s] Hks. simpl.
    apply list_elem_of_lookup_2, elem_of_map_to_list in Hks. by rewrite Hks.
Qed.

Lemma stats_insert (m : gmap string SessionData.t) sid (s' : SessionData.t) :
  sum_list ((λ kv, SessionData.segment_count kv.2) <$> map_to_list (<[sid := s']> m))
  + default 0 (SessionData.segment_count <$> m !! sid)
  = sum_list ((λ kv : string * SessionData.t, SessionData.segment_count kv.2) <$> map_to_list m)
    + SessionData.segment_count s'.
Proof.
  destruct (m !! sid) as [s|] eqn:E; simpl.
  - rewrite <- insert_delete_eq.
    rewrite map_to_list_insert by apply lookup_delete_eq.
    rewrite <- (map_to_list_delete m sid s E). csimpl. lia.
  - rewrite map_to_list_insert by done. csimpl. lia.
Qed.

(** X9: [add_segments] of the store raises total_segments by the count it
    returns and active_sessions by one exactly when the id was unknown;
    the id is listed afterwards, and the count returned is at most the
    size of the batch. *)
Theorem add_segments_stats
    (st : SessionStore.t) (sid : string) (segs : list TranscriptSegment.t) :
  let r := SessionStore.add_segments st sid segs in
  (SessionStore.get_stats r.1).2 = (SessionStore.get_stats st).2 + r.2
  ∧ (SessionStore.get_stats r.1).1
    = (SessionStore.get_stats st).1
      + match SessionStore.get_session st sid with Some _ => 0 | None => 1 end
  ∧ sid ∈ SessionStore.list_sessions r.1
  ∧ r.2 ≤ length segs.
Proof.
  intros r. unfold r, SessionStore.add_segments, SessionStore.get_stats,
    SessionStore.get_session, SessionStore.list_sessions.
  set (m := SessionStore._sessions st).
  destruct (m !! sid) as [s|] eqn:E; simpl.
  - pose proof (stats_insert m sid
      (SessionData.add_segments s segs).1) as H. rewrite E in H. simpl in H.
    split; [lia|]. split; [rewrite map_size_insert_Some by done; lia|].
    split; [|apply length_filter].
    apply list_elem_of_fmap. eexists (sid, _). split; [done|].
    apply elem_of_map_to_list, lookup_insert_eq.
  - pose proof (stats_insert m sid
      (SessionData.add_segments (SessionData.new sid) segs).1) as H.
    rewrite E in H. simpl in H.
    split; [lia|]. split; [rewrite map_size_insert_None by done; lia|].
    split; [|apply length_filter].
    apply list_elem_of_fmap. eexists (sid, _). split; [done|].
    apply elem_of_map_to_list, lookup_insert_eq.
Qed.

(** X10: an operation that does not name a session leaves that session
    as it is, present or absent. *)
Theorem sessions_isolated (st : SessionStore.t) (o : op) (sid : string) :
  op_session o ≠ Some sid →
  SessionStore._sessions (step st o) !! sid = SessionStore._sessions st !! sid.
Proof.
  intros Hne. destruct o as [sid' segs| |sid'| | |]; unfold step; try done.
  - apply store_add_segments_other. intros ->. by apply Hne.
  - rewrite store_run_analysis_lookup.
    destruct (SessionStore._sessions st !! sid); [|done].
    rewrite decide_False; [done|]. intros ->. by apply Hne.
Qed.

Lemma sessions_isolated_witness :
  SessionStore._sessions (step demo_store (AddSegments "s2" [seg_a])) !! "s1"
  = SessionStore._sessions demo_store !! "s1".
Proof.
  apply (sessions_isolated demo_store (AddSegments "s2" [seg_a]) "s1").
  simpl. intros [=].
Defined.

(** X11: ingestion leaves the cached insights of the session as they
    were (none for a session it creates); running the analysis a second
    time changes neither the store nor the result; and [get_insights]
    after an analysis returns what the analysis returned. *)
Theorem cache_stale_until_refresh
    (st : SessionStore.t) (sid : string) (segs : list TranscriptSegment.t) :
  SessionStore.get_insights (SessionStore.add_segments st sid segs).1 sid
  = SessionStore.get_insights st sid
  ∧ (let r := SessionStore.run_analysis st sid in
     SessionStore.run_analysis r.1 sid = r)
  ∧ (let r := SessionStore.run_analysis st sid in
     SessionStore.get_insights r.1 sid = r.2).
Proof.
  split; [|split].
  - unfold SessionStore.get_insights. rewrite store_add_segments_lookup.
    by destruct (SessionStore._sessions st !! sid).
  - simpl. unfold SessionStore.run_analysis.
    destruct (SessionStore._sessions st !! sid) as [s|] eqn:E; simpl.
    + rewrite lookup_insert_eq. simpl. f_equal. apply store_eq. simpl.
      by rewrite insert_insert_eq.
    + by rewrite E.
  - simpl. unfold SessionStore.get_insights.
    rewrite store_run_analysis_lookup. unfold SessionStore.run_analysis.
    destruct (SessionStore._sessions st !! sid) as [s|] eqn:E; [|done].
    by rewrite decide_True.
Qed.

Lemma step_session_ok st o :
  (∀ sid s, SessionStore._sessions st !! sid = Some s → session_ok sid s) →
  ∀ sid s, SessionStore._sessions (step st o) !! sid = Some s →
           session_ok sid s.
Proof.
  intros Inv sid s. destruct o as [sid' segs| |sid'| | |]; unfold step;
    try apply Inv.
  - destruct (decide (sid = sid')) as [->|Hne].
    + rewrite store_add_segments_lookup. intros [= <-].
      destruct (SessionStore._sessions st !! sid') as [s0|] eqn:E; simpl.
      * destruct (Inv _ _ E) as [Hid Hcache]. split; [done|].
        intros cached Hc. destruct (Hcache _ Hc) as (k & Hk & ->).
        exists k. simpl. split; [rewrite length_app; lia|].
        by rewrite take_app_le.
      * split; [done|]. by intros cached [=].
    + rewrite store_add_segments_other by done. apply Inv.
  - rewrite store_run_analysis_lookup.
    destruct (SessionStore._sessions st !! sid) as [s0|] eqn:E; [|done].
    destruct (Inv _ _ E) as [Hid Hcache].
    destruct (decide (sid' = sid)) as [->|Hne]; intros [= <-]; [|done].
    split; [done|]. simpl. intros cached [= <-].
    exists (length (SessionData.segments s0)). split; [done|].
    by rewrite firstn_all.
Qed.

Lemma run_session_ok ops :
  ∀ sid s, SessionStore._sessions (run ops) !! sid = Some s →
           session_ok sid s.
Proof.
  induction ops as [|o ops IH] using rev_ind.
  - intros sid s. unfold run; simpl. by rewrite lookup_empty.
  - rewrite run_snoc. by apply step_session_ok.
Qed.

(** X12: in a store reached by store operations a session is stored under
    its own session id, and its cached insights, when it has some, are the
    analysis of the segments as they were at some earlier point: of the
    first [k] stored segments, in time order, for some [k]. *)
Theorem cache_is_analysis_of_prefix
    (ops : list op) (sid : string) (s : SessionData.t) :
  SessionStore._sessions (run ops) !! sid = Some s →
  SessionData.session_id s = sid
  ∧ match SessionData.latest_insights s with
    | None => True
    | Some cached =>
        ∃ k, k ≤ length (SessionData.segments s)
             ∧ cached
               = InsightEngine.analyze_segments insight_engine
                   (Py.sorted Qc_ltb TranscriptSegment.timestamp
                      (take k (SessionData.segments s)))
                   sid
    end.
Proof.
  intros Hs. destruct (run_session_ok ops sid s Hs) as [Hid Hcache].
  split; [done|].
  destruct (SessionData.latest_insights s) as [cached|]; [|done].
  by apply Hcache.
Qed.

Lemma cache_is_analysis_of_prefix_witness :
  SessionData.session_id demo_session = "s1"
  ∧ ∃ k, k ≤ length (SessionData.segments demo_session)
         ∧ InsightEngine.analyze_segments insight_engine [seg_a; seg_b] "s1"
           = InsightEngine.analyze_segments insight_engine
               (Py.sorted Qc_ltb TranscriptSegment.timestamp
                  (take k (SessionData.segments demo_session)))
               "s1".
Proof.
  apply (cache_is_analysis_of_prefix demo_ops "s1" demo_session).
  vm_compute. reflexivity.
Defined.

(** X13: when no segment of a first batch has the (timestamp, text) of a
    segment of a second batch, ingesting the first and then the second
    leaves the session as ingesting both in one batch, and the two counts
    add up to the count of the single call. *)
Theorem add_segments_split
    (self : SessionData.t) (l1 l2 : list TranscriptSegment.t) :
  (∀ a b, a ∈ l1 → b ∈ l2 → SessionData.seg_key a ≠ SessionData.seg_key b) →
  let r1 := SessionData.add_segments self l1 in
  let r2 := SessionData.add_segments r1.1 l2 in
  let r := SessionData.add_segments self (l1 ++ l2) in
  r2.1 = r.1 ∧ r1.2 + r2.2 = r.2.
Proof.
  intros Hdisj r1 r2 r.
  assert (Hl2 :
    filter (λ s, SessionData.seg_key s
                 ∉ (list_to_set (SessionData.seg_key
                                   <$> SessionData.segments r1.1)
                    : gset (Qc * string))) l2
    = filter (λ s, SessionData.seg_key s
                   ∉ (list_to_set (SessionData.seg_key
                                     <$> SessionData.segments self)
                      : gset (Qc * string))) l2).
  { apply filter_ext_in. intros b Hb. unfold r1; simpl.
    rewrite !elem_of_list_to_set, fmap_app, elem_of_app.
    split; [tauto|]. intros Hno [Hin|Hin]; [done|].
    apply list_elem_of_fmap in Hin as (a & Hk & Ha).
    apply list_elem_of_filter in Ha as [_ Ha]. by apply (Hdisj a b). }
  unfold r2, r, SessionData.add_segments at 1 3. rewrite Hl2.
  unfold r1; simpl. rewrite filter_app, !length_app, <- app_assoc.
  split; [f_equal; lia|done].
Qed.

Lemma add_segments_split_witness :
  let r1 := SessionData.add_segments (SessionData.new "s1") [seg_a] in
  let r2 := SessionData.add_segments r1.1 [seg_b] in
  let r := SessionData.add_segments (SessionData.new "s1") ([seg_a] ++ [seg_b]) in
  r2.1 = r.1 ∧ r1.2 + r2.2 = r.2.
Proof.
  apply (add_segments_split (SessionData.new "s1") [seg_a] [seg_b]).
  intros a b ->%list_elem_of_singleton ->%list_elem_of_singleton.
  apply (bool_decide_unpack _). by vm_compute.
Defined.

(** ** The webhook *)

Lemma given_key_Some key k :
  Webhook.given_key key = Some k → key = Some k ∧ k ≠ "".
Proof. destruct key as [[|c r]|]; simpl; intros [= <-]; done. Qed.

Lemma given_key_nonempty k : k ≠ "" → Webhook.given_key (Some k) = Some k.
Proof. by destruct k. Qed.

Lemma receive_webhook_cache st payload key k r :
  Webhook._idempotency_cache st !! k = Some r →
  Webhook._idempotency_cache (Webhook.receive_webhook st payload key).1.1 !! k
  = Some r.
Proof.
  intros Hk. unfold Webhook.receive_webhook.
  destruct (Webhook.given_key key) as [k'|] eqn:Ek; simpl.
  - destruct (Webhook._idempotency_cache st !! k') as [c|] eqn:Ec; simpl; [done|].
    destruct (SessionStore.add_segments (Webhook.store st)
                (OmiWebhookPayload.session_id payload)
                (OmiWebhookPayload.segments payload)) as [store' n]. simpl.
    rewrite lookup_insert_ne; [done|]. intros ->. congruence.
  - by destruct (SessionStore.add_segments (Webhook.store st)
                   (OmiWebhookPayload.session_id payload)
                   (OmiWebhookPayload.segments payload)) as [store' n].
Qed.

Lemma handle_cache st e k r :
  Webhook._idempotency_cache st !! k = Some r →
  Webhook._idempotency_cache (handle st e) !! k = Some r.
Proof.
  intros Hk. destruct e as [payload key|sid|sid]; simpl.
  - by apply receive_webhook_cache.
  - done.
  - unfold Webhook.get_session_insights.
    destruct (Webhook._get_session_or_404 st sid); [done|].
    destruct (SessionStore.get_insights (Webhook.store st) sid); [done|].
    by destruct (SessionStore.run_analysis (Webhook.store st) sid).
Qed.

(** X14: once a response is cached under a non-empty idempotency key,
    after any deliveries, background analyses and insight requests a
    delivery with that key, whatever its payload, returns that response,
    changes neither the store nor the cache, and starts no analysis. *)
Theorem idempotency_key_replays
    (st : Webhook.state) (events : list event) (k : string)
    (cached : WebhookResponse.t) (payload : OmiWebhookPayload.t) :
  k ≠ "" →
  Webhook._idempotency_cache st !! k = Some cached →
  let st' := foldl handle st events in
  Webhook.receive_webhook st' payload (Some k) = (st', cached, None).
Proof.
  intros Hk Hc st'.
  assert (Hc' : Webhook._idempotency_cache st' !! k = Some cached).
  { unfold st'. clear st'. revert st Hc.
    induction events as [|e events IH]; intros st Hc; [done|].
    simpl. by apply IH, handle_cache. }
  unfold Webhook.receive_webhook. rewrite given_key_nonempty by done.
  simpl. by rewrite Hc'.
Qed.

Lemma idempotency_key_replays_witness :
  let st' :=
    foldl handle cached_state [Deliver demo_payload None; Background "s1"] in
  Webhook.receive_webhook st' demo_payload (Some "k1")
  = (st', demo_response, None).
Proof.
  apply (idempotency_key_replays cached_state
           [Deliver demo_payload None; Background "s1"] "k1" demo_response
           demo_payload).
  - intros [=].
  - vm_compute. reflexivity.
Defined.

(** X15: the first delivery under a new non-empty idempotency key ingests
    the segments, answers ok with the session id and the count of new
    segments, and leaves the analysis of the session to a background task;
    a retry with the same key, whatever its payload, gets the same
    response and changes nothing. *)
Theorem first_delivery_then_retry
    (st : Webhook.state) (payload retry : OmiWebhookPayload.t) (k : string) :
  k ≠ "" →
  Webhook._idempotency_cache st !! k = None →
  let r1 := Webhook.receive_webhook st payload (Some k) in
  let added :=
    SessionStore.add_segments (Webhook.store st)
      (OmiWebhookPayload.session_id payload)
      (OmiWebhookPayload.segments payload) in
  r1.1.2 = WebhookResponse.mk "ok" (OmiWebhookPayload.session_id payload) added.2
  ∧ Webhook.store r1.1.1 = added.1
  ∧ r1.2 = Some (OmiWebhookPayload.session_id payload)
  ∧ Webhook.receive_webhook r1.1.1 retry (Some k) = (r1.1.1, r1.1.2, None).
Proof.
  intros Hk Hc r1 added.
  assert (Hr1 : r1 = (Webhook.mk_state added.1
                        (<[k := WebhookResponse.mk "ok"
                                  (OmiWebhookPayload.session_id payload)
                                  added.2]> (Webhook._idempotency_cache st)),
                      WebhookResponse.mk "ok"
                        (OmiWebhookPayload.session_id payload) added.2,
                      Some (OmiWebhookPayload.session_id payload))).
  { unfold r1, Webhook.receive_webhook. rewrite given_key_nonempty by done.
    simpl. rewrite Hc. fold added. by destruct added. }
  rewrite Hr1. simpl. repeat split.
  unfold Webhook.receive_webhook. rewrite given_key_nonempty by done.
  simpl. by rewrite lookup_insert_eq.
Qed.

Lemma first_delivery_then_retry_witness :
  let r1 := Webhook.receive_webhook demo_state demo_payload (Some "k1") in
  let added :=
    SessionStore.add_segments (Webhook.store demo_state) "s1"
      [seg_a; seg_b] in
  r1.1.2 = WebhookResponse.mk "ok" "s1" added.2
  ∧ Webhook.store r1.1.1 = added.1
  ∧ r1.2 = Some "s1"
  ∧ Webhook.receive_webhook r1.1.1 (OmiWebhookPayload.mk "s2" [seg_b])
      (Some "k1")
    = (r1.1.1, r1.1.2, None).
Proof.
  apply (first_delivery_then_retry demo_state demo_payload
           (OmiWebhookPayload.mk "s2" [seg_b]) "k1").
  - intros [=].
  - vm_compute. reflexivity.
Defined.

Lemma store_add_segments_again st sid segs :
  SessionStore.add_segments (SessionStore.add_segments st sid segs).1 sid segs
  = ((SessionStore.add_segments st sid segs).1, 0).
Proof.
  pose proof (store_add_segments_lookup st sid segs) as H1.
  unfold SessionStore.add_segments at 1. rewrite H1, add_segments_again.
  f_equal. apply store_eq; simpl. by apply insert_id.
Qed.

Lemma receive_webhook_no_key st payload key :
  Webhook.given_key key = None →
  Webhook.receive_webhook st payload key
  = (Webhook.mk_state
       (SessionStore.add_segments (Webhook.store st)
          (OmiWebhookPayload.session_id payload)
          (OmiWebhookPayload.segments payload)).1
       (Webhook._idempotency_cache st),
     WebhookResponse.mk "ok" (OmiWebhookPayload.session_id payload)
       (SessionStore.add_segments (Webhook.store st)
          (OmiWebhookPayload.session_id payload)
          (OmiWebhookPayload.segments payload)).2,
     Some (OmiWebhookPayload.session_id payload)).
Proof.
  intros Hkey. unfold Webhook.receive_webhook. rewrite Hkey. simpl.
  by destruct (SessionStore.add_segments (Webhook.store st)
                 (OmiWebhookPayload.session_id payload)
                 (OmiWebhookPayload.segments payload)).
Qed.

(** X16: without idempotency key (none, or the empty string) the cache is
    not written; delivering the same payload again reports 0 new segments
    and leaves the state as after the first delivery; the count reported
    is at most the number of segments delivered. *)
Theorem redelivery_without_key
    (st : Webhook.state) (payload : OmiWebhookPayload.t)
    (key : option string) :
  Webhook.given_key key = None →
  let r1 := Webhook.receive_webhook st payload key in
  let r2 := Webhook.receive_webhook r1.1.1 payload key in
  WebhookResponse.segments_received r2.1.2 = 0
  ∧ r2.1.1 = r1.1.1
  ∧ Webhook._idempotency_cache r1.1.1 = Webhook._idempotency_cache st
  ∧ WebhookResponse.segments_received r1.1.2
    ≤ length (OmiWebhookPayload.segments payload).
Proof.
  intros Hkey r1 r2. unfold r2, r1.
  rewrite !(receive_webhook_no_key _ _ _ Hkey).
  cbn [fst snd Webhook.store Webhook._idempotency_cache
       WebhookResponse.segments_received].
  rewrite store_add_segments_again.
  cbn [fst snd]. repeat split.
  unfold SessionStore.add_segments.
  destruct (SessionStore._sessions (Webhook.store st)
              !! OmiWebhookPayload.session_id payload); simpl;
    apply length_filter.
Qed.

Lemma redelivery_without_key_witness :
  let r1 := Webhook.receive_webhook demo_state demo_payload (Some "") in
  let r2 := Webhook.receive_webhook r1.1.1 demo_payload (Some "") in
  WebhookResponse.segments_received r2.1.2 = 0
  ∧ r2.1.1 = r1.1.1
  ∧ Webhook._idempotency_cache r1.1.1 = Webhook._idempotency_cache demo_state
  ∧ WebhookResponse.segments_received r1.1.2
    ≤ length (OmiWebhookPayload.segments demo_payload).
Proof.
  apply (redelivery_without_key demo_state demo_payload (Some "")).
  reflexivity.
Defined.

(** X17: a delivery that is no replay names its session for the
    background analysis; once that analysis ran, the cached insights are
    the analysis of all the segments stored for the session, in time
    order, and the insights endpoint returns them without changing the
    state. *)
Theorem background_analysis_refreshes
    (st : Webhook.state) (payload : OmiWebhookPayload.t)
    (key : option string) :
  Webhook.given_key key ≫= (λ k, Webhook._idempotency_cache st !! k) = None →
  let sid := OmiWebhookPayload.session_id payload in
  let r := Webhook.receive_webhook st payload key in
  let st2 := Webhook._run_background_analysis r.1.1 sid in
  r.2 = Some sid
  ∧ ∃ s, SessionStore.get_session (Webhook.store r.1.1) sid = Some s
         ∧ SessionStore.get_insights (Webhook.store st2) sid
           = Some (InsightEngine.analyze_segments insight_engine
                     (SessionData.ordered_segments s) sid)
         ∧ Webhook.get_session_insights st2 sid
           = (st2, inr (InsightEngine.analyze_segments insight_engine
                          (SessionData.ordered_segments s) sid)).
Proof.
  intros Hnew sid r st2.
  set (added := SessionStore.add_segments (Webhook.store st) sid
                  (OmiWebhookPayload.segments payload)).
  assert (Hr : r.2 = Some sid ∧ Webhook.store r.1.1 = added.1).
  { unfold r, Webhook.receive_webhook. rewrite Hnew. fold sid added.
    by destruct added. }
  destruct Hr as [Htask Hstore]. split; [done|].
  pose proof (store_add_segments_lookup (Webhook.store st) sid
                (OmiWebhookPayload.segments payload)) as Hlook.
  fold added in Hlook. rewrite <- Hstore in Hlook.
  eexists. split; [exact Hlook|].
  assert (Hins : SessionStore.get_insights (Webhook.store st2) sid
                 = Some (InsightEngine.analyze_segments insight_engine
                           (SessionData.ordered_segments
                              (SessionData.add_segments
                                 (default (SessionData.new sid)
                                    (SessionStore._sessions (Webhook.store st)
                                       !! sid))
                                 (OmiWebhookPayload.segments payload)).1)
                           sid)).
  { unfold st2, Webhook._run_background_analysis, SessionStore.get_insights.
    cbn [Webhook.store]. rewrite store_run_analysis_lookup, Hlook.
    by rewrite decide_True. }
  split; [done|].
  unfold Webhook.get_session_insights, Webhook._get_session_or_404.
  rewrite Hins.
  assert (Hex : is_Some (SessionStore.get_session (Webhook.store st2) sid)).
  { unfold SessionStore.get_session, st2, Webhook._run_background_analysis.
    cbn [Webhook.store]. rewrite store_run_analysis_lookup, Hlook.
    by rewrite decide_True. }
  destruct Hex as [s2 ->]. done.
Qed.

Lemma background_analysis_refreshes_witness :
  let r := Webhook.receive_webhook demo_state demo_payload (Some "k1") in
  let st2 := Webhook._run_background_analysis r.1.1 "s1" in
  r.2 = Some "s1"
  ∧ ∃ s, SessionStore.get_session (Webhook.store r.1.1) "s1" = Some s
         ∧ SessionStore.get_insights (Webhook.store st2) "s1"
           = Some (InsightEngine.analyze_segments insight_engine
                     (SessionData.ordered_segments s) "s1")
         ∧ Webhook.get_session_insights st2 "s1"
           = (st2, inr (InsightEngine.analyze_segments insight_engine
                          (SessionData.ordered_segments s) "s1")).
Proof.
  apply (background_analysis_refreshes demo_state demo_payload (Some "k1")).
  vm_compute. reflexivity.
Defined.

(** X18: for an unknown session id the six session endpoints raise 404
    with the detail [Session '<id>' not found.] and leave the state as it
    is; for a known one none of them raises, and the session, summary and
    transcript endpoints answer from the stored session. *)
Theorem unknown_session_is_404
    (st : Webhook.state) (sid : string) (type : option InsightType)
    (min_confidence : Qc) :
  match SessionStore.get_session (Webhook.store st) sid with
  | None =>
      Webhook.get_session st sid
      = inl (Webhook.HTTP_404_NOT_FOUND (not_found sid))
      ∧ Webhook.get_session_summary st sid
        = inl (Webhook.HTTP_404_NOT_FOUND (not_found sid))
      ∧ Webhook.get_session_transcript st sid
        = inl (Webhook.HTTP_404_NOT_FOUND (not_found sid))
      ∧ Webhook.get_session_insights st sid
        = (st, inl (Webhook.HTTP_404_NOT_FOUND (not_found sid)))
      ∧ Api.get_insights (Webhook.store st) sid type min_confidence
        = (Webhook.store st, inl (Api.HTTP_404_NOT_FOUND (not_found sid)))
      ∧ Api.get_coaching (Webhook.store st) sid
        = (Webhook.store st, inl (Api.HTTP_404_NOT_FOUND (not_found sid)))
  | Some s =>
      Webhook.get_session st sid = inr (SessionData.to_dict s)
      ∧ Webhook.get_session_summary st sid = inr (SessionData.get_summary s)
      ∧ Webhook.get_session_transcript st sid
        = inr (SessionData.get_formatted_transcript s)
      ∧ is_ok (Webhook.get_session_insights st sid).2
      ∧ is_ok (Api.get_insights (Webhook.store st) sid type min_confidence).2
      ∧ is_ok (Api.get_coaching (Webhook.store st) sid).2
  end.
Proof.
  unfold Webhook.get_session, Webhook.get_session_summary,
    Webhook.get_session_transcript, Webhook.get_session_insights,
    Webhook._get_session_or_404, Api.get_insights, Api.get_coaching.
  destruct (SessionStore.get_session (Webhook.store st) sid) as [s|] eqn:E;
    [|done].
  split; [done|]. split; [done|]. split; [done|].
  unfold SessionStore.get_session in E.
  unfold SessionStore.get_insights, SessionStore.run_analysis. rewrite E.
  destruct (SessionData.latest_insights s); done.
Qed.

(** ** Coaching and agreement of the insight endpoints *)

Lemma dict_append_lookup {V} k (x : V) d c :
  dict_lookup c (Py.dict_append k x d)
  = if decide (k = c) then Some (default [] (dict_lookup c d) ++ [x])
    else dict_lookup c d.
Proof.
  induction d as [|[k' vs] d IH]; simpl.
  - case_bool_decide; case_decide; simplify_eq; done.
  - case_bool_decide as Hk; simpl; case_bool_decide as Hc;
      rewrite ?IH; case_decide; simplify_eq; done.
Qed.

Lemma dict_append_lengths {V} k (x : V) d :
  sum_list (length <$> (Py.dict_append k x d).*2)
  = sum_list (length <$> d.*2) + 1.
Proof.
  induction d as [|[k' vs] d IH]; csimpl; [done|].
  case_bool_decide; csimpl; rewrite ?IH, ?length_app; simpl; lia.
Qed.

Lemma dict_append_keys {V} k (x : V) d :
  (Py.dict_append k x d).*1
  = if bool_decide (k ∈ d.*1) then d.*1 else d.*1 ++ [k].
Proof.
  induction d as [|[k' vs] d IH]; csimpl; [done|].
  destruct (decide (k' = k)) as [->|Hne].
  - rewrite (bool_decide_eq_true_2 (k = k)) by done.
    rewrite (bool_decide_eq_true_2 (k ∈ k :: d.*1)) by left. done.
  - rewrite (bool_decide_eq_false_2 (k' = k)) by done. csimpl. rewrite IH.
    destruct (decide (k ∈ d.*1)) as [Hin|Hout].
    + rewrite (bool_decide_eq_true_2 (k ∈ d.*1)) by done.
      rewrite (bool_decide_eq_true_2 (k ∈ k' :: d.*1)) by (by right). done.
    + rewrite (bool_decide_eq_false_2 (k ∈ d.*1)) by done.
      rewrite (bool_decide_eq_false_2 (k ∈ k' :: d.*1)); [done|].
      intros [?|?]%elem_of_cons; congruence.
Qed.

Lemma coach_eq d i :
  Api.coach d i
  = if decide (coachable i)
    then Py.dict_append (value (Insight.type i)) (entry_of i) d
    else d.
Proof.
  unfold Api.coach, coachable.
  case_bool_decide as Hlt; case_decide as Hc; try done.
  - exfalso. by eapply Qclt_not_le.
  - exfalso. apply Hc. by apply Qcnot_lt_le.
Qed.

Lemma coaching_snoc l i :
  foldl Api.coach [] (l ++ [i]) = Api.coach (foldl Api.coach [] l) i.
Proof. by rewrite foldl_app. Qed.

Lemma coaching_lookup c (l : list Insight.t) :
  dict_lookup c (foldl Api.coach [] l)
  = match suggestions_of c l with [] => None | es => Some es end.
Proof.
  induction l as [|i l IH] using rev_ind; [done|].
  rewrite coaching_snoc, coach_eq. unfold suggestions_of in *.
  rewrite filter_app, fmap_app.
  destruct (decide (coachable i)) as [Hc|Hc].
  - rewrite dict_append_lookup, IH.
    destruct (decide (value (Insight.type i) = c)) as [Hv|Hv].
    + rewrite filter_cons_True by done. csimpl.
      by destruct (entry_of <$> filter _ l).
    + rewrite filter_cons_False by tauto. csimpl. by rewrite app_nil_r.
  - rewrite filter_cons_False by tauto. csimpl. by rewrite app_nil_r.
Qed.

Lemma coaching_total (l : list Insight.t) :
  sum_list (length <$> (foldl Api.coach [] l).*2)
  = length (filter coachable l).
Proof.
  induction l as [|i l IH] using rev_ind; [done|].
  rewrite coaching_snoc, coach_eq, filter_app, length_app.
  destruct (decide (coachable i)) as [Hc|Hc].
  - rewrite dict_append_lengths, IH, filter_cons_True by done. done.
  - rewrite IH, filter_cons_False by done. simpl. lia.
Qed.

Lemma coaching_NoDup (l : list Insight.t) : NoDup (foldl Api.coach [] l).*1.
Proof.
  induction l as [|i l IH] using rev_ind; [apply NoDup_nil_2|].
  rewrite coaching_snoc, coach_eq. case_decide; [|done].
  rewrite dict_append_keys. case_bool_decide; [done|].
  apply NoDup_app. split; [done|]. split; [|apply NoDup_singleton].
  intros x Hx ->%list_elem_of_singleton. done.
Qed.

(** X19: for an existing session [get_coaching] answers with the session
    id, with total_suggestions the number of insights (cached, or freshly
    analysed) whose confidence is at least 0.6, and with a dictionary that
    has each category once and maps a category to the suggestions of these
    insights of that category, in order, and has no entry for a category
    without one; the insights it used are cached afterwards. *)
Theorem coaching_groups_suggestions
    (store : SessionStore.t) (sid : string) (s : SessionData.t) :
  SessionStore._sessions store !! sid = Some s →
  let base := SessionInsights.insights (base_insights s sid) in
  ∃ store' coaching,
    Api.get_coaching store sid
    = (store', inr (sid, coaching, length (filter coachable base)))
    ∧ NoDup coaching.*1
    ∧ (∀ c, dict_lookup c coaching
            = match suggestions_of c base with [] => None | es => Some es end)
    ∧ SessionStore.get_insights store' sid = Some (base_insights s sid).
Proof.
  intros Hs base.
  unfold Api.get_coaching, SessionStore.get_session. rewrite Hs.
  unfold SessionStore.get_insights at 1. rewrite Hs.
  unfold base, base_insights.
  destruct (SessionData.latest_insights s) as [cached|] eqn:E.
  - exists store, (foldl Api.coach [] (SessionInsights.insights cached)).
    rewrite coaching_total. split; [done|].
    split; [apply coaching_NoDup|]. split; [intros c; apply coaching_lookup|].
    unfold SessionStore.get_insights. by rewrite Hs.
  - unfold SessionStore.run_analysis at 1. rewrite Hs.
    eexists _, _. rewrite coaching_total. split; [reflexivity|].
    split; [apply coaching_NoDup|]. split; [intros c; apply coaching_lookup|].
    unfold SessionStore.get_insights. cbn [SessionStore._sessions].
    by rewrite lookup_insert_eq.
Qed.

Lemma coaching_groups_suggestions_witness :
  let base := SessionInsights.insights (base_insights demo_session "s1") in
  ∃ store' coaching,
    Api.get_coaching demo_store "s1"
    = (store', inr ("s1", coaching, length (filter coachable base)))
    ∧ NoDup coaching.*1
    ∧ (∀ c, dict_lookup c coaching
            = match suggestions_of c base with [] => None | es => Some es end)
    ∧ SessionStore.get_insights store' "s1"
      = Some (base_insights demo_session "s1").
Proof.
  apply (coaching_groups_suggestions demo_store "s1" demo_session).
  vm_compute. reflexivity.
Defined.

(** X20: in a store reached by store operations, the insights endpoint
    without type filter and with min_confidence 0 and the insights
    endpoint of the webhook router return the same insight set for an
    existing session, the cached one or a fresh analysis, and leave the
    same store. *)
Theorem unfiltered_insights_agree
    (ops : list op) (cache : gmap string WebhookResponse.t) (sid : string)
    (s : SessionData.t) :
  SessionStore._sessions (run ops) !! sid = Some s →
  let a := Api.get_insights (run ops) sid None (Q2Qc 0) in
  let w := Webhook.get_session_insights (Webhook.mk_state (run ops) cache) sid in
  a.2 = inr (base_insights s sid)
  ∧ w.2 = inr (base_insights s sid)
  ∧ Webhook.store w.1 = a.1.
Proof.
  intros Hs a w.
  destruct (run_session_ok ops sid s Hs) as [Hid Hcache].
  unfold a, w, Api.get_insights, Webhook.get_session_insights,
    Webhook._get_session_or_404, SessionStore.get_session.
  cbn [Webhook.store]. rewrite Hs.
  unfold SessionStore.get_insights. rewrite Hs. unfold base_insights.
  destruct (SessionData.latest_insights s) as [cached|] eqn:E.
  - destruct (Hcache cached eq_refl) as (k & _ & ->). done.
  - unfold SessionStore.run_analysis. rewrite Hs. done.
Qed.

Lemma unfiltered_insights_agree_witness :
  let a := Api.get_insights (run demo_ops) "s1" None (Q2Qc 0) in
  let w :=
    Webhook.get_session_insights (Webhook.mk_state (run demo_ops) ∅) "s1" in
  a.2 = inr (base_insights demo_session "s1")
  ∧ w.2 = inr (base_insights demo_session "s1")
  ∧ Webhook.store w.1 = a.1.
Proof.
  apply (unfiltered_insights_agree demo_ops ∅ "s1" demo_session).
  vm_compute. reflexivity.
Defined.

(** X21: the result of an analysis has no insight exactly when no rule
    phrase of the catalog occurs in the lowercased text of any scanned
    segment. *)
Theorem no_findings_iff_no_phrase
    (self : InsightEngine.t) (segments : list TranscriptSegment.t)
    (session_id : string) :
  let r := InsightEngine.analyze_segments self segments session_id in
  SessionInsights.insights r = []
  ↔ ∀ seg ty rules rule,
      seg ∈ InsightEngine.target_segments self segments →
      (ty, rules) ∈ _RULE_MAP → rule ∈ rules →
      Py.contains (Rule.phrase rule) (Py.lower (TranscriptSegment.text seg))
      = false.
Proof.
  intros r.
  set (cs := candidates (InsightEngine.target_segments self segments)).
  assert (Hp : SessionInsights.insights r ≡ₚ emitted cs).
  { unfold r, InsightEngine.analyze_segments; simpl.
    rewrite sorted_Permutation. by rewrite scan_candidates. }
  split.
  - intros Hnil seg ty rules rule Hseg Htr Hrule.
    destruct (Py.contains _ _) eqn:Hm; [|done]. exfalso.
    destruct (emitted_covers cs (seg, ty, rule)) as (i & Hi & _).
    + apply candidates_elem. eauto.
    + exact Hm.
    + rewrite <- Hp, Hnil in Hi. by apply elem_of_nil in Hi.
  - intros Hno. destruct (SessionInsights.insights r) as [|i l] eqn:E; [done|].
    exfalso. assert (Hi : i ∈ emitted cs) by (rewrite <- Hp; by left).
    apply emitted_from in Hi as ([[seg ty] rule] & Hc & Hm & _).
    apply candidates_elem in Hc as (Hseg & rules & Htr & Hrule).
    unfold matches in Hm; simpl in Hm.
    by rewrite (Hno seg ty rules rule) in Hm.
Qed.
